(** * VlyToolbar: the element picker of src/components/VlyToolbar.tsx

    A shallow embedding of the selector utility, the Overlay's pointer
    handlers and the Toolbar controller, with the properties of the
    specification stated over it. *)

From Stdlib Require Import NArith Ascii String Lia.
From stdpp Require Import base option list gmap.

(** ** JavaScript strings

    A JavaScript string is a sequence of UTF-16 code units. *)

Abbreviation jsstring := (list N).

(** The code units of an ASCII literal. *)
Definition js (s : string) : jsstring :=
  map N_of_ascii (list_ascii_of_string s).

(** A string is truthy when it is not empty. *)
Definition str_truthy (s : jsstring) : bool :=
  match s with [] => false | _ :: _ => true end.

(** WhiteSpace and LineTerminator code points of ECMAScript: the set that
    [String.prototype.trim] strips and that the class [\s] matches. *)
Definition isWhiteSpace (c : N) : bool :=
  ((c =? 9) || (c =? 10) || (c =? 11) || (c =? 12) || (c =? 13) || (c =? 32)
   || (c =? 160) || (c =? 5760) || ((8192 <=? c) && (c <=? 8202))
   || (c =? 8232) || (c =? 8233) || (c =? 8239) || (c =? 8287)
   || (c =? 12288) || (c =? 65279))%N.

Fixpoint trimStart (s : jsstring) : jsstring :=
  match s with
  | [] => []
  | c :: r => if isWhiteSpace c then trimStart r else s
  end.

(** Trailing white space is dropped: a code unit is kept when something
    is kept after it or when it is not white space itself. *)
Fixpoint trimEnd (s : jsstring) : jsstring :=
  match s with
  | [] => []
  | c :: r =>
      match trimEnd r with
      | [] => if isWhiteSpace c then [] else [c]
      | r' => c :: r'
      end
  end.

(** [s.trim()] *)
Definition trim (s : jsstring) : jsstring := trimEnd (trimStart s).

(** [s.replace(/\s+/g, by)]: scanning from the left, every maximal run of
    white space is one match of [\s+] and is replaced by [by]. The flag
    [in_run] records that the scan is inside a run whose replacement has
    been emitted already. *)
Fixpoint replace_ws_runs (in_run : bool) (rep : jsstring) (s : jsstring)
  : jsstring :=
  match s with
  | [] => []
  | c :: r =>
      if isWhiteSpace c
      then (if in_run then [] else rep) ++ replace_ws_runs true rep r
      else c :: replace_ws_runs false rep r
  end.

Definition replaceAll_ws (s rep : jsstring) : jsstring :=
  replace_ws_runs false rep s.

(** [s.toLowerCase()] on the code units of a tag name: the capitals A-Z
    are mapped to a-z. Cased letters outside ASCII, which the tag name
    of a built-in element does not hold, are left as they are; no
    statement below depends on how a code unit is mapped. *)
Definition lowerUnit (c : N) : N :=
  if ((65 <=? c) && (c <=? 90))%N then (c + 32)%N else c.

Definition toLowerCase (s : jsstring) : jsstring := map lowerUnit s.

(** ** DOM elements as the selector utility reads them *)

(** [el.className] is a string on an HTML element and an
    SVGAnimatedString object on an SVG element; both reflect the class
    attribute. *)
Inductive ClassName : Type :=
| ClassString (s : jsstring)
| ClassAnimated (baseVal : jsstring).

Module El.
Record t : Type := mk {
  id : jsstring;
  className : ClassName;
  tagName : jsstring;
}.
End El.

(** ** Selector utility *)

Definition getDomSelector (el : El.t) : jsstring :=
  if str_truthy (El.id el) then js "#" ++ El.id el
  else
    match El.className el with
    | ClassString c =>
        if str_truthy c
        then toLowerCase (El.tagName el) ++ js "." ++ replaceAll_ws (trim c) (js ".")
        else toLowerCase (El.tagName el)
    | ClassAnimated _ =>
        (* an object is truthy, but its typeof is not "string" *)
        toLowerCase (El.tagName el)
    end.

(** Cutting a string at every code unit that satisfies [p]. *)
Fixpoint split_on (p : N → bool) (s : jsstring) : list jsstring :=
  match s with
  | [] => [[]]
  | c :: r =>
      if p c then [] :: split_on p r
      else match split_on p r with
           | t :: ts => (c :: t) :: ts
           | [] => [[c]]
           end
  end.

Definition tokens_on (p : N → bool) (s : jsstring) : list jsstring :=
  filter (λ t, t ≠ []) (split_on p s).

Fixpoint join_with (sep : jsstring) (ts : list jsstring) : jsstring :=
  match ts with
  | [] => []
  | [t] => t
  | t :: ts' => t ++ sep ++ join_with sep ts'
  end.

(** The reading of the specification: the class attribute is cut at every
    white-space code unit and the empty pieces are dropped; the tokens
    are joined by a dot after the lowercase tag name and a dot. *)
Definition class_tokens (s : jsstring) : list jsstring :=
  tokens_on isWhiteSpace s.

Definition spec_class_selector (tag cls : jsstring) : jsstring :=
  toLowerCase tag ++ js "." ++ join_with (js ".") (class_tokens cls).

(** ** JavaScript values carried by a message event

    Numbers are the integers and NaN; a number with a fraction is truthy
    like every integer other than zero. *)

#[warnings="-register-all"]
Inductive JsValue : Type :=
| JUndefined
| JNull
| JBool (b : bool)
| JNumber (n : Z)
| JNaN
| JString (s : jsstring)
| JObject (props : list (jsstring * JsValue)).

(** ToBoolean *)
Definition truthy (v : JsValue) : bool :=
  match v with
  | JUndefined | JNull | JNaN => false
  | JBool b => b
  | JNumber n => negb (n =? 0)%Z
  | JString s => str_truthy s
  | JObject _ => true
  end.

Fixpoint assoc_get (k : jsstring) (props : list (jsstring * JsValue)) : JsValue :=
  match props with
  | [] => JUndefined
  | (k', v) :: rest => if bool_decide (k' = k) then v else assoc_get k rest
  end.

(** [v.k] where [v] is not null or undefined: a primitive has none of the
    properties read by the message handler. *)
Definition get_prop (v : JsValue) (k : jsstring) : JsValue :=
  match v with
  | JObject props => assoc_get k props
  | _ => JUndefined
  end.

(** [v === s] for a string literal [s] *)
Definition strict_eq_str (v : JsValue) (s : jsstring) : bool :=
  match v with
  | JString t => bool_decide (t = s)
  | _ => false
  end.

(** ** The document *)

Abbreviation Handle := nat.

Definition HIGHLIGHT_CLASS : jsstring := js "vly-toolbar-highlight".
Definition STYLE_ID : jsstring := js "vly-toolbar-style".

(** *** DOMTokenList over the class attribute *)

(** ASCII white space of the DOM standard: tab, LF, FF, CR and space. *)
Definition isAsciiWhitespace (c : N) : bool :=
  ((c =? 9) || (c =? 10) || (c =? 12) || (c =? 13) || (c =? 32))%N.

(** An ordered set keeps the first occurrence of each token. *)
Fixpoint ordered_set (seen : list jsstring) (l : list jsstring) : list jsstring :=
  match l with
  | [] => []
  | x :: r =>
      if bool_decide (x ∈ seen) then ordered_set seen r
      else x :: ordered_set (x :: seen) r
  end.

(** The ordered set parser and serializer. *)
Definition token_set (attr : jsstring) : list jsstring :=
  ordered_set [] (tokens_on isAsciiWhitespace attr).

Definition serialize_set (ts : list jsstring) : jsstring :=
  join_with (js " ") ts.

Definition class_attr (cn : ClassName) : jsstring :=
  match cn with ClassString s | ClassAnimated s => s end.

Definition with_class_attr (cn : ClassName) (s : jsstring) : ClassName :=
  match cn with
  | ClassString _ => ClassString s
  | ClassAnimated _ => ClassAnimated s
  end.

Definition set_class (el : El.t) (attr : jsstring) : El.t :=
  El.mk (El.id el) (with_class_attr (El.className el) attr) (El.tagName el).

Definition classList_contains (tok : jsstring) (el : El.t) : bool :=
  bool_decide (tok ∈ token_set (class_attr (El.className el))).

(** [el.classList.add(tok)] *)
Definition classList_add (tok : jsstring) (el : El.t) : El.t :=
  let ts := token_set (class_attr (El.className el)) in
  let ts' := if bool_decide (tok ∈ ts) then ts else ts ++ [tok] in
  set_class el (serialize_set ts').

(** [el.classList.remove(tok)] *)
Definition classList_remove (tok : jsstring) (el : El.t) : El.t :=
  let ts := token_set (class_attr (El.className el)) in
  set_class el (serialize_set (filter (λ t, t ≠ tok) ts)).

(** *** Nodes of the document *)

Record Document : Type := mkDocument {
  doc_nodes : gmap Handle El.t;   (* the connected elements *)
  doc_head : list Handle;         (* children of document.head, in order *)
}.

Definition elementsById (i : jsstring) (d : Document) : gmap Handle El.t :=
  filter (λ p, El.id p.2 = i) (doc_nodes d).

(** [document.getElementById(i)]; the code only tests the result. *)
Definition getElementById (d : Document) (i : jsstring) : option Handle :=
  fst <$> head (map_to_list (elementsById i d)).

(** The handle of a newly created element. *)
Definition createElement (d : Document) : Handle := fresh (dom (doc_nodes d)).

(** The style element carries the highlight rule as its text, which no
    operation reads back; the model keeps its id and its place. *)
Definition injectHighlightStyle (d : Document) : Document :=
  match getElementById d STYLE_ID with
  | Some _ => d
  | None =>
      let style := createElement d in
      {| doc_nodes := <[style := El.mk STYLE_ID (ClassString []) (js "STYLE")]> (doc_nodes d);
         doc_head := doc_head d ++ [style] |}
  end.

Definition update_node (f : El.t → El.t) (h : Handle) (d : Document) : Document :=
  {| doc_nodes := alter f h (doc_nodes d); doc_head := doc_head d |}.

(** An element carries the highlight marker. *)
Definition carries_marker (d : Document) (h : Handle) : bool :=
  match doc_nodes d !! h with
  | Some el => classList_contains HIGHLIGHT_CLASS el
  | None => false
  end.

(** ** Collaborators

    The hierarchy functions and the snapshot library are used through
    their interfaces only. *)

Class Collaborators : Type := {
  Hierarchy : Type;
  getReactComponentHierarchy : Handle → Hierarchy;
  formatReactComponentHierarchy : Hierarchy → jsstring;
}.

(** A canvas answers [toDataURL(mime)] with a data URL or throws. *)
Record Canvas : Type := mkCanvas {
  toDataURL : jsstring → JsValue + jsstring;
}.

(** How the promise of [snapdom.toCanvas] settles. *)
Inductive Settled : Type :=
| Fulfilled (canvas : Canvas)
| Rejected (reason : JsValue).

Record SnapOptions : Type := mkSnapOptions { fast : bool; compress : bool }.

Section Toolbar.
Context `{Collaborators}.

(** The outbound message. [image] is [None] for [undefined]. *)
Record SelectMessage : Type := mkSelectMessage {
  msg_type : jsstring;
  selector : jsstring;
  reactHierarchy : Hierarchy;
  reactHierarchyFormatted : jsstring;
  image : option jsstring;
}.

(** *** Asynchronous code

    The effects of the controller's code, and the tree of an async
    function: it returns, throws, performs an effect, or is suspended
    on the snapshot promise with the rest of its body as continuation. *)

Inductive Effect : Type :=
| SetSelectMode (b : bool)
| ConsoleError (text : jsstring) (e : JsValue)
| PostMessage (m : SelectMessage) (targetOrigin : jsstring).

Inductive Async (A : Type) : Type :=
| Ret (a : A)
| Throw (e : JsValue)
| Perform (eff : Effect) (k : Async A)
| AwaitCanvas (el : Handle) (opts : SnapOptions) (k : Settled → Async A).
Global Arguments Ret {A} a.
Global Arguments Throw {A} e.
Global Arguments Perform {A} eff k.
Global Arguments AwaitCanvas {A} el opts k.

Fixpoint async_bind {A B : Type} (f : A → Async B) (p : Async A) : Async B :=
  match p with
  | Ret a => f a
  | Throw e => Throw e
  | Perform eff k => Perform eff (async_bind f k)
  | AwaitCanvas el opts k => AwaitCanvas el opts (λ s, async_bind f (k s))
  end.

Global Instance Async_ret : MRet Async := @Ret.
Global Instance Async_bind : MBind Async := @async_bind.

(** [try { p } catch (e) { h e }] *)
Fixpoint try_catch {A : Type} (p : Async A) (h : JsValue → Async A) : Async A :=
  match p with
  | Ret a => Ret a
  | Throw e => h e
  | Perform eff k => Perform eff (try_catch k h)
  | AwaitCanvas el opts k => AwaitCanvas el opts (λ s, try_catch (k s) h)
  end.

Definition perform (eff : Effect) : Async unit := Perform eff (Ret tt).

(** [await snapdom.toCanvas(el, opts)]: a rejection is thrown at the
    await. *)
Definition await_toCanvas (el : Handle) (opts : SnapOptions) : Async Canvas :=
  AwaitCanvas el opts
    (λ s, match s with Fulfilled c => Ret c | Rejected e => Throw e end).

Definition canvas_toDataURL (c : Canvas) (mime : jsstring) : Async jsstring :=
  match toDataURL c mime with
  | inl e => Throw e
  | inr url => Ret url
  end.

(** *** State *)

Inductive PointerEvents : Type := PEAuto | PENone.

(** A mounted Overlay: its [lastHovered] ref and the [pointerEvents]
    style of its element. *)
Record OverlayInst : Type := mkOverlay {
  lastHovered : option Handle;
  pointerEvents : PointerEvents;
}.

(** Calls of the hover callbacks, with the argument the Overlay passes. *)
Inductive HoverCall : Type :=
| Hovered (el : Handle)
| Unhovered.

(** A selection suspended on its snapshot promise. *)
Record Pending : Type := mkPending {
  cap_el : Handle;
  cap_opts : SnapOptions;
  cap_k : Settled → Async unit;
}.

Record World : Type := mkWorld {
  selectMode : bool;                          (* useState(false) *)
  toolbarRef : option Handle;                 (* toolbarRef.current *)
  ignoreList : list Handle;                   (* useMemo(..., []) *)
  overlay : option OverlayInst;               (* selectMode && <Overlay/> *)
  document : Document;
  outbox : list (SelectMessage * jsstring);   (* window.parent.postMessage *)
  console : list (jsstring * JsValue);        (* console.error *)
  pending : list Pending;
  hoverCalls : list HoverCall;
}.

Definition set_overlay (o : option OverlayInst) (w : World) : World :=
  mkWorld (selectMode w) (toolbarRef w) (ignoreList w) o (document w)
          (outbox w) (console w) (pending w) (hoverCalls w).

Definition set_document (d : Document) (w : World) : World :=
  mkWorld (selectMode w) (toolbarRef w) (ignoreList w) (overlay w) d
          (outbox w) (console w) (pending w) (hoverCalls w).

Definition set_pending (ps : list Pending) (w : World) : World :=
  mkWorld (selectMode w) (toolbarRef w) (ignoreList w) (overlay w) (document w)
          (outbox w) (console w) ps (hoverCalls w).

Definition log_hover (c : HoverCall) (w : World) : World :=
  mkWorld (selectMode w) (toolbarRef w) (ignoreList w) (overlay w) (document w)
          (outbox w) (console w) (pending w) (hoverCalls w ++ [c]).

Definition new_overlay : OverlayInst := mkOverlay None PEAuto.

(** [setSelectMode(b)] and the render that follows it: the Overlay is
    mounted exactly when the flag is set; an Overlay that stays mounted
    keeps its ref, one that is mounted anew starts from [useRef(null)],
    and unmounting runs no cleanup. The memoised [ignoreList] has an
    empty dependency array and is returned as it is. *)
Definition setSelectMode (b : bool) (w : World) : World :=
  mkWorld b (toolbarRef w) (ignoreList w)
          (if b then Some (default new_overlay (overlay w)) else None)
          (document w) (outbox w) (console w) (pending w) (hoverCalls w).

Definition apply_effect (eff : Effect) (w : World) : World :=
  match eff with
  | SetSelectMode b => setSelectMode b w
  | ConsoleError text e =>
      mkWorld (selectMode w) (toolbarRef w) (ignoreList w) (overlay w) (document w)
              (outbox w) (console w ++ [(text, e)]) (pending w) (hoverCalls w)
  | PostMessage m target =>
      mkWorld (selectMode w) (toolbarRef w) (ignoreList w) (overlay w) (document w)
              (outbox w ++ [(m, target)]) (console w) (pending w) (hoverCalls w)
  end.

(** Running an async function up to its end or to its next suspension.
    Nothing awaits the promise of [handleSelect]: a throw that escapes
    ends the run. *)
Fixpoint run (p : Async unit) (w : World) : World :=
  match p with
  | Ret _ => w
  | Throw _ => w
  | Perform eff k => run k (apply_effect eff w)
  | AwaitCanvas el opts k => set_pending (pending w ++ [mkPending el opts k]) w
  end.

(** *** Overlay *)

Record OverlayProps : Type := mkOverlayProps {
  prop_ignoreList : list Handle;
  onSelect : Handle → World → World;
  onHover : Handle → World → World;
  onUnhover : World → World;
  prop_selectMode : bool;
}.

Definition current_hover (w : World) : option Handle :=
  overlay w ≫= lastHovered.

Definition set_lastHovered (h : option Handle) (w : World) : World :=
  set_overlay ((λ o, mkOverlay h (pointerEvents o)) <$> overlay w) w.

Definition set_pointerEvents (pe : PointerEvents) (w : World) : World :=
  set_overlay ((λ o, mkOverlay (lastHovered o) pe) <$> overlay w) w.

Definition classList_add_at (h : Handle) (tok : jsstring) (w : World) : World :=
  set_document (update_node (classList_add tok) h (document w)) w.

Definition classList_remove_at (h : Handle) (tok : jsstring) (w : World) : World :=
  set_document (update_node (classList_remove tok) h (document w)) w.

(** [hit] is what [document.elementFromPoint(e.clientX, e.clientY)]
    answers while the overlay lets pointer events through. *)
Definition handleMouseMove (props : OverlayProps) (hit : option Handle)
    (w : World) : World :=
  if negb (prop_selectMode props) then w
  else
    let w := set_pointerEvents PENone w in
    let el := hit in
    let w := set_pointerEvents PEAuto w in
    match el with
    | None => w
    | Some el =>
        if bool_decide (el ∈ prop_ignoreList props) then w
        else if bool_decide (current_hover w ≠ Some el) then
          let w := match current_hover w with
                   | Some prev => classList_remove_at prev HIGHLIGHT_CLASS w
                   | None => w
                   end in
          let w := set_lastHovered (Some el) w in
          let w := classList_add_at el HIGHLIGHT_CLASS w in
          onHover props el w
        else w
    end.

Definition handleMouseLeave (props : OverlayProps) (w : World) : World :=
  if negb (prop_selectMode props) then w
  else
    let w := match current_hover w with
             | Some prev =>
                 set_lastHovered None (classList_remove_at prev HIGHLIGHT_CLASS w)
             | None => w
             end in
    onUnhover props w.

(** [preventDefault] and [stopPropagation] act on the event only. *)
Definition handleClick (props : OverlayProps) (hit : option Handle)
    (w : World) : World :=
  let w := set_pointerEvents PENone w in
  let el := hit in
  let w := set_pointerEvents PEAuto w in
  match el with
  | None => w
  | Some el =>
      if bool_decide (el ∈ prop_ignoreList props) then w
      else
        let w := match current_hover w with
                 | Some prev => classList_remove_at prev HIGHLIGHT_CLASS w
                 | None => w
                 end in
        onSelect props el w
  end.

(** *** Toolbar controller *)

Definition SET_SELECTION_MODE : jsstring := js "vly-set-selection-mode".

Definition handleMessage (data : JsValue) (w : World) : World :=
  if truthy data && strict_eq_str (get_prop data (js "type")) SET_SELECTION_MODE
  then setSelectMode (truthy (get_prop data (js "enabled"))) w
  else w.

(** [node] is the element that [el] refers to when the function is
    called. *)
Definition handleSelect (el : Handle) (node : El.t) : Async unit :=
  perform (SetSelectMode false);;
  let selector := getDomSelector node in
  let hierarchy := getReactComponentHierarchy el in
  let formatted := formatReactComponentHierarchy hierarchy in
  imageDataUrl ←
    try_catch
      (canvas ← await_toCanvas el (mkSnapOptions true true);
       url ← canvas_toDataURL canvas (js "image/png");
       mret (Some url))
      (λ e, perform (ConsoleError (js "Failed to snapshot element") e);;
            mret None);
  perform (PostMessage
             {| msg_type := js "vly-toolbar-select";
                selector := selector;
                reactHierarchy := hierarchy;
                reactHierarchyFormatted := formatted;
                image := imageDataUrl |}
             (js "*")).

(** The hover callbacks of the controller have empty bodies; the call
    is recorded. *)
Definition handleHover (el : Handle) (w : World) : World :=
  log_hover (Hovered el) w.

Definition handleUnhover (w : World) : World :=
  log_hover Unhovered w.

(** The body of the [useMemo] that builds the ignore list. *)
Definition buildIgnoreList (current : option Handle) : list Handle :=
  match current with
  | Some root => [root]
  | None => []
  end.

(** Mounting the toolbar. The first render runs the hooks: the ref
    starts at null and the memo body runs with it. The commit creates
    the toolbar's container and attaches the ref; then the effect
    injects the highlight style. *)
Definition mount (d : Document) : World :=
  let current := None in
  let ignore := buildIgnoreList current in
  let root := createElement d in
  let d := {| doc_nodes := <[root := El.mk [] (ClassString []) (js "DIV")]> (doc_nodes d);
              doc_head := doc_head d |} in
  let current := Some root in
  let d := injectHighlightStyle d in
  {| selectMode := false; toolbarRef := current; ignoreList := ignore;
     overlay := None; document := d; outbox := []; console := [];
     pending := []; hoverCalls := [] |}.

(** The props the controller's render passes to the Overlay. The Overlay
    is rendered only while the flag is set, so the flag its handlers
    close over is the current one. *)
Definition overlayProps (w : World) : OverlayProps :=
  {| prop_ignoreList := ignoreList w;
     onSelect := λ el w,
       match doc_nodes (document w) !! el with
       | Some node => run (handleSelect el node) w
       | None => w
       end;
     onHover := handleHover;
     onUnhover := handleUnhover;
     prop_selectMode := selectMode w |}.

(** *** The event loop *)

Inductive Event : Type :=
| EvMessage (data : JsValue)
| EvMouseMove (hit : option Handle)
| EvMouseLeave
| EvClick (hit : option Handle)
| EvSettle (i : nat) (s : Settled).

(** Every handler runs to completion; pointer events reach the Overlay
    only while it is mounted. *)
Definition step (w : World) (ev : Event) : World :=
  match ev with
  | EvMessage data => handleMessage data w
  | EvMouseMove hit =>
      if overlay w is Some _ then handleMouseMove (overlayProps w) hit w else w
  | EvMouseLeave =>
      if overlay w is Some _ then handleMouseLeave (overlayProps w) w else w
  | EvClick hit =>
      if overlay w is Some _ then handleClick (overlayProps w) hit w else w
  | EvSettle i s =>
      match pending w !! i with
      | Some p => run (cap_k p s) (set_pending (delete i (pending w)) w)
      | None => w
      end
  end.

Definition steps (w : World) (evs : list Event) : World :=
  fold_left step evs w.
End Toolbar.

(** ** Notions used by the statements *)

(** The join of the pieces of [s] in which only the pieces after the
    first may be dropped when empty. *)
Definition join_pieces (sep s : jsstring) : jsstring :=
  match split_on isWhiteSpace s with
  | t :: ts => join_with sep (t :: filter (λ t, t ≠ []) ts)
  | [] => []
  end.

(** A token that survives serialization and parsing. *)
Definition token_wf (t : jsstring) : Prop :=
  t ≠ [] ∧ Forall (λ c, isAsciiWhitespace c = false) t.

(** The document changes through marker updates only. *)
Inductive marker_updates (d : Document) : Document → Prop :=
| mu_refl : marker_updates d d
| mu_add d' h tok :
    marker_updates d d' →
    marker_updates d (update_node (classList_add tok) h d')
| mu_remove d' h tok :
    marker_updates d d' →
    marker_updates d (update_node (classList_remove tok) h d').

(** The document changes by adding and removing the highlight class. *)
Inductive highlight_updates (d : Document) : Document → Prop :=
| hu_refl : highlight_updates d d
| hu_add d' h :
    highlight_updates d d' →
    highlight_updates d (update_node (classList_add HIGHLIGHT_CLASS) h d')
| hu_remove d' h :
    highlight_updates d d' →
    highlight_updates d (update_node (classList_remove HIGHLIGHT_CLASS) h d').

(** An element of the page as a later document holds it: same id, same
    tag, same class tokens but for the highlight class. *)
Definition same_but_highlight (e e' : El.t) : Prop :=
  El.id e' = El.id e ∧ El.tagName e' = El.tagName e
  ∧ ∀ tok, tok ≠ HIGHLIGHT_CLASS →
      (tok ∈ token_set (class_attr (El.className e'))
       ↔ tok ∈ token_set (class_attr (El.className e))).

Section Statements.
Context `{Collaborators}.

(** The message a selection of [el] posts, up to its image. *)
Definition select_message (el : Handle) (node : El.t) (img : option jsstring)
  : SelectMessage :=
  {| msg_type := js "vly-toolbar-select";
     selector := getDomSelector node;
     reactHierarchy := getReactComponentHierarchy el;
     reactHierarchyFormatted :=
       formatReactComponentHierarchy (getReactComponentHierarchy el);
     image := img |}.

(** What the capture step yields once the snapshot promise has settled:
    a data URL, or the value thrown inside the [try] block. *)
Definition capture_result (s : Settled) : JsValue + jsstring :=
  match s with
  | Fulfilled c => toDataURL c (js "image/png")
  | Rejected e => inl e
  end.

(** The Overlay is mounted and its element has its rendered style. *)
Definition picking (w : World) : Prop := overlay w ≠ None.

(** No element carries the highlight marker. *)
Definition no_marker (d : Document) : Prop :=
  ∀ h, carries_marker d h = false.

(** Only the element of the [lastHovered] ref carries the marker, and it
    is the one the last hover call reported. *)
Definition hover_inv (w : World) : Prop :=
  ∀ h, carries_marker (document w) h = true →
       current_hover w = Some h ∧ last (hoverCalls w) = Some (Hovered h).

Definition pointer_event (ev : Event) : Prop :=
  match ev with
  | EvMouseMove _ | EvMouseLeave | EvClick _ => True
  | _ => False
  end.
(** What the controller's effects leave alone. *)
Definition frame (w w' : World) : Prop :=
  toolbarRef w' = toolbarRef w ∧ ignoreList w' = ignoreList w
  ∧ document w' = document w ∧ hoverCalls w' = hoverCalls w.

(** What is left of a selection of [el] once its snapshot promise has
    settled, for the element [node] the selection read. *)
Definition finish_selection (el : Handle) (node : El.t) (s : Settled)
    (w : World) : World :=
  match capture_result s with
  | inr url =>
      apply_effect (PostMessage (select_message el node (Some url)) (js "*")) w
  | inl e =>
      apply_effect (PostMessage (select_message el node None) (js "*"))
        (apply_effect (ConsoleError (js "Failed to snapshot element") e) w)
  end.

(** A suspended capture that was left by [handleSelect]. *)
Definition resumes (P : Pending) : Prop :=
  ∃ node, ∀ s w, run (cap_k P s) w = finish_selection (cap_el P) node s w.

(** A posted selection result. *)
Definition selection_post (p : SelectMessage * jsstring) : Prop :=
  msg_type p.1 = js "vly-toolbar-select" ∧ p.2 = js "*".

(** The Overlay is mounted exactly when the flag is set, and between two
    events its element has the rendered style. *)
Definition consistent (w : World) : Prop :=
  (overlay w ≠ None ↔ selectMode w = true)
  ∧ (∀ o, overlay w = Some o → pointerEvents o = PEAuto).

Definition wf_world (w : World) : Prop :=
  consistent w ∧ Forall resumes (pending w) ∧ Forall selection_post (outbox w).

(** A click that starts a selection in [w]. *)
Definition click_completes (w : World) (ev : Event) : bool :=
  match ev with
  | EvClick (Some el) =>
      bool_decide (overlay w ≠ None) && bool_decide (el ∉ ignoreList w)
      && bool_decide (is_Some (doc_nodes (document w) !! el))
  | _ => false
  end.

(** A settle event that finds its capture. *)
Definition settles (w : World) (ev : Event) : bool :=
  match ev with
  | EvSettle i _ => bool_decide (i < length (pending w))%nat
  | _ => false
  end.

(** The completed clicks and the settled captures of a run of events. *)
Fixpoint count_events (f : World → Event → bool) (w : World)
    (evs : list Event) : nat :=
  match evs with
  | [] => 0
  | ev :: evs' => (if f w ev then 1 else 0) + count_events f (step w ev) evs'
  end.
End Statements.

(** ** A page for the examples *)

Definition demo_collab : Collaborators :=
  {| Hierarchy := list jsstring;
     getReactComponentHierarchy := λ _, [js "App"];
     formatReactComponentHierarchy := λ h, join_with (js " > ") h |}.

Definition demo_button : El.t :=
  El.mk (js "save") (ClassString (js " btn  primary ")) (js "BUTTON").

Definition demo_card : El.t :=
  El.mk [] (ClassString (js "card")) (js "DIV").

(** A button [#save] and a card, before the toolbar is mounted. *)
Definition demo_doc : Document :=
  {| doc_nodes := {[ 10%nat := demo_button; 11%nat := demo_card ]};
     doc_head := [] |}.

Definition enable_msg : JsValue :=
  JObject [(js "type", JString (js "vly-set-selection-mode"));
           (js "enabled", JBool true)].

Definition disable_msg : JsValue :=
  JObject [(js "type", JString (js "vly-set-selection-mode"));
           (js "enabled", JBool false)].

Definition demo_mounted : World := @mount demo_collab demo_doc.

Definition demo_picking : World := step demo_mounted (EvMessage enable_msg).

(** The demo page with the pointer over the button. *)
Definition demo_hovering : World := step demo_picking (EvMouseMove (Some 10%nat)).


(** * Properties *)

(** ** Strings: trimming, replacing white-space runs, splitting *)

Section Splitting.
Variable p : N → bool.

Lemma split_on_not_nil (s : jsstring) : split_on p s ≠ [].
Proof. destruct s as [|c r]; simpl; [done|]. destruct (p c); [done|]. by destruct (split_on p r). Qed.

Lemma tokens_on_sep (c : N) (r : jsstring) :
  p c = true → tokens_on p (c :: r) = tokens_on p r.
Proof.
  intros Hc. unfold tokens_on. simpl. rewrite Hc.
  rewrite filter_cons_False; [done|]. by intros [].
Qed.

Lemma tokens_on_unit (c : N) (r : jsstring) :
  p c = false →
  ∃ t ts, split_on p r = t :: ts ∧
          tokens_on p (c :: r) = (c :: t) :: filter (λ t, t ≠ []) ts.
Proof.
  intros Hc. unfold tokens_on. simpl. rewrite Hc.
  destruct (split_on p r) as [|t ts] eqn:E; [by apply split_on_not_nil in E|].
  exists t, ts. split; [done|]. by rewrite filter_cons_True.
Qed.

(** Every piece is free of separators. *)
Lemma split_on_clean (s : jsstring) :
  Forall (Forall (λ c, p c = false)) (split_on p s).
Proof.
  induction s as [|c r IH]; simpl; [by repeat constructor|].
  destruct (p c) eqn:Hc; [by constructor|].
  destruct (split_on p r) as [|t ts]; [by repeat constructor|].
  inversion IH; subst. constructor; [by constructor|done].
Qed.

(** The pieces, in order, are the string without its separators. *)
Lemma split_on_concat (s : jsstring) :
  concat (split_on p s) = filter (λ c, p c = false) s.
Proof.
  induction s as [|c r IH]; simpl; [done|].
  destruct (p c) eqn:Hc.
  - rewrite filter_cons_False by congruence. done.
  - rewrite filter_cons_True by done. rewrite <- IH.
    by destruct (split_on p r).
Qed.

Lemma concat_filter_nonempty (l : list jsstring) :
  concat (filter (λ t, t ≠ []) l) = concat l.
Proof.
  induction l as [|t l IH]; [done|].
  destruct t as [|c t].
  - rewrite filter_cons_False by (by intros []). done.
  - rewrite filter_cons_True by done. simpl. by rewrite IH.
Qed.

Lemma tokens_on_concat (s : jsstring) :
  concat (tokens_on p s) = filter (λ c, p c = false) s.
Proof. unfold tokens_on. by rewrite concat_filter_nonempty, split_on_concat. Qed.

Lemma tokens_on_wf (s : jsstring) :
  Forall (λ t, t ≠ [] ∧ Forall (λ c, p c = false) t) (tokens_on p s).
Proof.
  unfold tokens_on. apply Forall_forall. intros t Ht.
  apply list_elem_of_filter in Ht as [Hne Hin]. split; [done|].
  pose proof (split_on_clean s) as Hc.
  rewrite Forall_forall in Hc. by apply Hc.
Qed.

(** A clean piece followed by a separator is cut off as it is. *)
Lemma split_on_app_sep (t : jsstring) (c : N) (rest : jsstring) :
  Forall (λ c, p c = false) t → p c = true →
  split_on p (t ++ c :: rest) = t :: split_on p rest.
Proof.
  intros Ht Hc. induction Ht as [|d t Hd Ht IH]; simpl.
  - by rewrite Hc.
  - by rewrite Hd, IH.
Qed.

Lemma split_on_piece (t : jsstring) :
  Forall (λ c, p c = false) t → split_on p t = [t].
Proof.
  intros Ht. induction Ht as [|d t Hd Ht IH]; simpl; [done|].
  by rewrite Hd, IH.
Qed.

(** Parsing a serialized list of well-formed tokens gives the list back. *)
Lemma tokens_on_join (c : N) (l : list jsstring) :
  p c = true →
  Forall (λ t, t ≠ [] ∧ Forall (λ c, p c = false) t) l →
  tokens_on p (join_with [c] l) = l.
Proof.
  intros Hc Hl. unfold tokens_on.
  induction Hl as [|t l [Hne Ht] Hl IH]; [done|].
  destruct l as [|t' l'].
  - simpl. rewrite split_on_piece by done. by rewrite filter_cons_True.
  - change (join_with [c] (t :: t' :: l')) with (t ++ c :: join_with [c] (t' :: l')).
    rewrite split_on_app_sep by done.
    rewrite filter_cons_True by done. by rewrite IH.
Qed.
End Splitting.

Lemma join_with_cons_unit (sep : jsstring) (c : N) (t : jsstring) (ts : list jsstring) :
  join_with sep ((c :: t) :: ts) = c :: join_with sep (t :: ts).
Proof. by destruct ts. Qed.

Lemma tokens_trimStart (s : jsstring) :
  class_tokens (trimStart s) = class_tokens s.
Proof.
  unfold class_tokens. induction s as [|c r IH]; simpl; [done|].
  destruct (isWhiteSpace c) eqn:Hc; [|done].
  by rewrite tokens_on_sep.
Qed.

Lemma trimStart_head (s : jsstring) :
  match trimStart s with
  | [] => True
  | c :: _ => isWhiteSpace c = false
  end.
Proof. induction s as [|c r IH]; simpl; [done|]. by destruct (isWhiteSpace c) eqn:Hc. Qed.

(** Nothing is left of a string by [trimEnd] exactly when it has no token. *)
Lemma trimEnd_nil_iff (s : jsstring) :
  trimEnd s = [] ↔ class_tokens s = [].
Proof.
  unfold class_tokens. induction s as [|c r IH]; simpl; [done|].
  destruct (isWhiteSpace c) eqn:Hc.
  - rewrite tokens_on_sep by done. rewrite <- IH.
    by destruct (trimEnd r).
  - destruct (tokens_on_unit isWhiteSpace c r Hc) as (t & ts & _ & ->).
    by destruct (trimEnd r).
Qed.

Lemma join_tokens_unit (sep : jsstring) (c : N) (r : jsstring) :
  isWhiteSpace c = false →
  join_with sep (class_tokens (c :: r)) = c :: join_pieces sep r.
Proof.
  intros Hc. unfold class_tokens, join_pieces.
  destruct (tokens_on_unit isWhiteSpace c r Hc) as (t & ts & -> & ->).
  apply join_with_cons_unit.
Qed.

Lemma join_pieces_unit (sep : jsstring) (c : N) (r : jsstring) :
  isWhiteSpace c = false →
  join_pieces sep (c :: r) = join_with sep (class_tokens (c :: r)).
Proof.
  intros Hc. unfold join_pieces, class_tokens, tokens_on. simpl. rewrite Hc.
  destruct (split_on isWhiteSpace r) as [|t ts] eqn:E;
    [by apply split_on_not_nil in E|].
  by rewrite filter_cons_True.
Qed.

Lemma join_pieces_sep (sep : jsstring) (c : N) (r : jsstring) :
  isWhiteSpace c = true →
  join_pieces sep (c :: r) =
    match class_tokens r with
    | [] => []
    | ts => sep ++ join_with sep ts
    end.
Proof.
  intros Hc. unfold join_pieces, class_tokens, tokens_on. simpl. rewrite Hc.
  by destruct (filter _ (split_on isWhiteSpace r)).
Qed.

Lemma replace_trimEnd_sep (b : bool) (sep : jsstring) (c : N) (r : jsstring) :
  isWhiteSpace c = true →
  replace_ws_runs b sep (trimEnd (c :: r)) =
    match trimEnd r with
    | [] => []
    | _ => (if b then [] else sep) ++ replace_ws_runs true sep (trimEnd r)
    end.
Proof.
  intros Hc. simpl. destruct (trimEnd r) as [|d r']; rewrite ?Hc; [done|].
  simpl. by rewrite Hc.
Qed.

Lemma replace_trimEnd_unit (b : bool) (sep : jsstring) (c : N) (r : jsstring) :
  isWhiteSpace c = false →
  replace_ws_runs b sep (trimEnd (c :: r)) =
    c :: replace_ws_runs false sep (trimEnd r).
Proof.
  intros Hc. simpl. destruct (trimEnd r) as [|d r']; rewrite ?Hc; simpl;
    by rewrite Hc.
Qed.

(** The scan of [\s+] over a string without trailing white space. *)
Lemma replace_trimEnd (sep s : jsstring) :
  replace_ws_runs true sep (trimEnd s) = join_with sep (class_tokens s)
  ∧ replace_ws_runs false sep (trimEnd s) = join_pieces sep s.
Proof.
  induction s as [|c r [IH1 IH2]]; [done|].
  destruct (isWhiteSpace c) eqn:Hc.
  - rewrite !replace_trimEnd_sep, join_pieces_sep by done.
    pose proof (trimEnd_nil_iff r) as Hnil.
    replace (class_tokens (c :: r)) with (class_tokens r)
      by (unfold class_tokens; by rewrite tokens_on_sep).
    rewrite IH1. destruct (trimEnd r) as [|d r'].
    + by rewrite (proj1 Hnil eq_refl).
    + split; [done|]. destruct (class_tokens r); [|done].
      by specialize (proj2 Hnil eq_refl).
  - rewrite !replace_trimEnd_unit, join_pieces_unit, join_tokens_unit by done.
    by rewrite IH2.
Qed.

(** [trim] followed by [replace(/\s+/g, sep)] joins the tokens. *)
Lemma replace_trim_join (sep s : jsstring) :
  replaceAll_ws (trim s) sep = join_with sep (class_tokens s).
Proof.
  unfold replaceAll_ws, trim.
  rewrite (proj2 (replace_trimEnd sep (trimStart s))).
  rewrite <- (tokens_trimStart s).
  pose proof (trimStart_head s) as Hh.
  destruct (trimStart s) as [|c r]; [done|].
  by apply join_pieces_unit.
Qed.

(** A run of white space is consumed up to its end: after the
    replacement of a match, the scan goes on behind the run. *)
Lemma replace_ws_runs_skip (sep r : jsstring) :
  replace_ws_runs true sep r = replace_ws_runs false sep (trimStart r).
Proof.
  induction r as [|c r IH]; simpl; [done|].
  destruct (isWhiteSpace c) eqn:Hc; [done|]. simpl. by rewrite Hc.
Qed.

Lemma replaceAll_ws_match (sep : jsstring) (c : N) (r : jsstring) :
  isWhiteSpace c = true →
  replaceAll_ws (c :: r) sep = sep ++ replaceAll_ws (trimStart r) sep.
Proof.
  intros Hc. unfold replaceAll_ws. simpl. rewrite Hc.
  by rewrite replace_ws_runs_skip.
Qed.

(** [trimEnd] is [trimStart] read from the other end. *)
Lemma trimStart_snoc (s : jsstring) (c : N) :
  trimStart (s ++ [c]) =
    match trimStart s with
    | [] => if isWhiteSpace c then [] else [c]
    | t => t ++ [c]
    end.
Proof.
  induction s as [|d s IH]; simpl; [done|].
  by destruct (isWhiteSpace d).
Qed.

Lemma trimEnd_reverse (s : jsstring) :
  trimEnd s = reverse (trimStart (reverse s)).
Proof.
  induction s as [|c s IH]; [done|].
  rewrite reverse_cons, trimStart_snoc. simpl. rewrite IH.
  destruct (trimStart (reverse s)) as [|d t] eqn:E.
  - by destruct (isWhiteSpace c).
  - change (d :: t ++ [c]) with ((d :: t) ++ [c]).
    rewrite reverse_app. simpl.
    destruct (reverse (d :: t)) eqn:E'; [|done].
    by apply (f_equal length) in E'; rewrite length_reverse in E'.
Qed.

(** ** Selector utility *)

(** C6: an element with a non-empty id is named by [#] and the id,
    whatever its class and tag. *)
Theorem selector_of_id (el : El.t) :
  El.id el ≠ [] → getDomSelector el = js "#" ++ El.id el.
Proof.
  intros Hid. unfold getDomSelector.
  destruct (El.id el); [done|reflexivity].
Qed.

Lemma selector_of_id_witness :
  getDomSelector (El.mk (js "save") (ClassString (js "btn primary")) (js "BUTTON"))
  = js "#save".
Proof.
  apply (selector_of_id (El.mk (js "save") (ClassString (js "btn primary")) (js "BUTTON"))).
  vm_compute. discriminate.
Defined.

(** C4: an element without id whose class attribute is a non-empty string
    is named by the lowercase tag, a dot, and the white-space separated
    tokens of the class joined by dots; the tokens are not empty, hold no
    white space and follow the order of the attribute. *)
Theorem selector_of_class (el : El.t) (cls : jsstring) :
  El.id el = [] → El.className el = ClassString cls → cls ≠ [] →
  getDomSelector el = spec_class_selector (El.tagName el) cls
  ∧ Forall (λ t, t ≠ [] ∧ Forall (λ c, isWhiteSpace c = false) t) (class_tokens cls)
  ∧ concat (class_tokens cls) = filter (λ c, isWhiteSpace c = false) cls.
Proof.
  intros Hid Hcls Hne. split; [|split].
  - unfold getDomSelector, spec_class_selector. rewrite Hid, Hcls. simpl.
    destruct cls as [|c r]; [done|]. simpl str_truthy. cbv iota.
    by rewrite replace_trim_join.
  - apply tokens_on_wf.
  - apply tokens_on_concat.
Qed.

Lemma selector_of_class_witness :
  let el := El.mk [] (ClassString (js "  btn   primary ")) (js "DIV") in
  let cls := js "  btn   primary " in
  getDomSelector el = spec_class_selector (El.tagName el) cls
  ∧ Forall (λ t, t ≠ [] ∧ Forall (λ c, isWhiteSpace c = false) t) (class_tokens cls)
  ∧ concat (class_tokens cls) = filter (λ c, isWhiteSpace c = false) cls.
Proof.
  apply selector_of_class; [reflexivity|reflexivity|].
  vm_compute. discriminate.
Defined.

Example selector_of_class_irregular :
  getDomSelector (El.mk [] (ClassString (js "  btn   primary ")) (js "DIV"))
  = js "div.btn.primary".
Proof. by vm_compute. Qed.

(** A class attribute of white space only has no token: the selector is
    the tag followed by the dot. *)
Example selector_of_class_blank :
  getDomSelector (El.mk [] (ClassString (js "   ")) (js "DIV")) = js "div.".
Proof. by vm_compute. Qed.

(** C10: an element without id whose [className] is not a string (an SVG
    element) is named by its lowercase tag alone, whatever its class
    attribute holds. *)
Theorem selector_of_animated_class (el : El.t) (baseVal : jsstring) :
  El.id el = [] → El.className el = ClassAnimated baseVal →
  getDomSelector el = toLowerCase (El.tagName el).
Proof.
  intros Hid Hcls. unfold getDomSelector. by rewrite Hid, Hcls.
Qed.

Lemma selector_of_animated_class_witness :
  getDomSelector (El.mk [] (ClassAnimated (js "icon big")) (js "svg")) = js "svg".
Proof.
  apply (selector_of_animated_class
           (El.mk [] (ClassAnimated (js "icon big")) (js "svg")) (js "icon big"));
    reflexivity.
Defined.

(** ** DOMTokenList *)

Lemma ordered_set_elem (x : jsstring) (seen l : list jsstring) :
  x ∈ ordered_set seen l ↔ x ∈ l ∧ x ∉ seen.
Proof.
  revert seen. induction l as [|y l IH]; intros seen; simpl.
  - split; [by intros ?%elem_of_nil|by intros [?%elem_of_nil _]].
  - case_bool_decide as Hy.
    + rewrite IH, elem_of_cons. split; [intros [Hin Hn]; by split; [right|]|].
      intros [[->|Hin] Hn]; [done|by split].
    + rewrite !elem_of_cons, IH, elem_of_cons. split.
      * intros [->|[Hin Hn]]; [by split; [left|]|]. split; [by right|].
        intros Hs. apply Hn. by right.
      * intros [[->|Hin] Hn]; [by left|].
        destruct (decide (x = y)) as [->|Hne]; [by left|]. right.
        split; [done|]. by intros [?|?].
Qed.

Lemma token_set_wf (attr : jsstring) : Forall token_wf (token_set attr).
Proof.
  unfold token_set. apply Forall_forall. intros t Ht.
  apply ordered_set_elem in Ht as [Ht _].
  pose proof (tokens_on_wf isAsciiWhitespace attr) as Hwf.
  rewrite Forall_forall in Hwf. by apply Hwf.
Qed.

(** The tokens read back from a serialized set are the tokens of the set. *)
Lemma token_set_serialize (x : jsstring) (ts : list jsstring) :
  Forall token_wf ts → x ∈ token_set (serialize_set ts) ↔ x ∈ ts.
Proof.
  intros Hts. unfold token_set, serialize_set.
  change (js " ") with [32%N].
  rewrite (tokens_on_join isAsciiWhitespace 32%N ts eq_refl Hts).
  rewrite ordered_set_elem. split; [by intros []|].
  intros Hin. split; [done|]. by intros ?%elem_of_nil.
Qed.

Lemma class_attr_set_class (el : El.t) (attr : jsstring) :
  class_attr (El.className (set_class el attr)) = attr.
Proof. unfold set_class. simpl. by destruct (El.className el). Qed.

Lemma classList_contains_remove (tok : jsstring) (el : El.t) :
  classList_contains tok (classList_remove tok el) = false.
Proof.
  unfold classList_contains, classList_remove.
  rewrite class_attr_set_class. apply bool_decide_eq_false.
  rewrite token_set_serialize.
  - by intros [? _]%list_elem_of_filter.
  - apply Forall_forall. intros t [_ Ht]%list_elem_of_filter.
    pose proof (token_set_wf (class_attr (El.className el))) as Hwf.
    rewrite Forall_forall in Hwf. by apply Hwf.
Qed.

Lemma classList_contains_add (tok : jsstring) (el : El.t) :
  token_wf tok → classList_contains tok (classList_add tok el) = true.
Proof.
  intros Htok. unfold classList_contains, classList_add.
  rewrite class_attr_set_class. apply bool_decide_eq_true.
  pose proof (token_set_wf (class_attr (El.className el))) as Hwf.
  case_bool_decide as Hin.
  - by rewrite token_set_serialize.
  - rewrite token_set_serialize.
    + apply elem_of_app. right. by apply list_elem_of_singleton.
    + apply Forall_app. split; [done|]. by constructor.
Qed.

Lemma HIGHLIGHT_CLASS_wf : token_wf HIGHLIGHT_CLASS.
Proof.
  split; [vm_compute; discriminate|].
  vm_compute. repeat constructor.
Qed.

(** ** Effects and frames *)

Section Controller.
Context `{Collaborators}.

Lemma apply_effect_frame (eff : Effect) (w : World) : frame w (apply_effect eff w).
Proof. by destruct eff. Qed.

Lemma run_frame (p : Async unit) (w : World) : frame w (run p w).
Proof.
  revert w. induction p as [a|e|eff k IH|el opts k _]; intros w; simpl;
    try done.
  destruct (IH (apply_effect eff w)) as (H1 & H2 & H3 & H4).
  destruct (apply_effect_frame eff w) as (E1 & E2 & E3 & E4).
  unfold frame. by rewrite H1, H2, H3, H4.
Qed.

(** The synchronous part of [handleSelect] and what is left of it after
    the await. *)
Lemma run_handleSelect (el : Handle) (node : El.t) (w : World) :
  ∃ k, run (handleSelect el node) w
       = set_pending (pending w ++ [mkPending el (mkSnapOptions true true) k])
                     (setSelectMode false w)
     ∧ ∀ s w2, run (k s) w2 =
         match capture_result s with
         | inr url =>
             apply_effect (PostMessage (select_message el node (Some url)) (js "*")) w2
         | inl e =>
             apply_effect (PostMessage (select_message el node None) (js "*"))
               (apply_effect (ConsoleError (js "Failed to snapshot element") e) w2)
         end.
Proof.
  eexists. split; [reflexivity|].
  intros s w2. destruct s as [c|e]; simpl; [|reflexivity].
  unfold canvas_toDataURL. by destruct (toDataURL c _).
Qed.

(** ** Inbound messages *)

(** C9: a message without the selection-mode type tag changes nothing;
    a message with the tag sets the flag to the truthiness of its
    [enabled] field, and the Overlay is mounted exactly when it is set. *)
Theorem handleMessage_tag (data : JsValue) (w : World) :
  (get_prop data (js "type") ≠ JString SET_SELECTION_MODE →
     handleMessage data w = w)
  ∧ (get_prop data (js "type") = JString SET_SELECTION_MODE →
     let w' := handleMessage data w in
     selectMode w' = truthy (get_prop data (js "enabled"))
     ∧ (overlay w' ≠ None ↔ selectMode w' = true)).
Proof.
  unfold handleMessage. split.
  - intros Htag. unfold strict_eq_str.
    destruct (get_prop data (js "type")) as [| | | | |t|] eqn:E;
      rewrite ?andb_false_r; try done.
    rewrite bool_decide_eq_false_2; [by rewrite andb_false_r|].
    by intros ->.
  - intros Htag. rewrite Htag. unfold strict_eq_str.
    rewrite bool_decide_eq_true_2 by done.
    destruct data; try done. simpl.
    split; [done|]. by destruct (truthy _).
Qed.
End Controller.

Lemma handleMessage_tag_witness :
  handleMessage (JObject [(js "type", JString (js "resize"))]) demo_picking
    = demo_picking
  ∧ selectMode (handleMessage disable_msg demo_picking)
    = truthy (get_prop disable_msg (js "enabled")).
Proof.
  split.
  - apply (proj1 (handleMessage_tag _ demo_picking)). vm_compute. discriminate.
  - apply (proj2 (handleMessage_tag disable_msg demo_picking)). reflexivity.
Defined.

(** ** Pointer events on the Overlay *)

Section Overlay.
Context `{Collaborators}.

(** Hit-testing lets pointer events through the overlay and restores
    them; nothing but the overlay's style is touched. *)
Lemma hit_test_restores (w : World) :
  (∀ o, overlay w = Some o → pointerEvents o = PEAuto) →
  set_pointerEvents PEAuto (set_pointerEvents PENone w) = w.
Proof.
  intros Hpe. destruct w as [sm tr il [o|] d ob co pe hc]; [|done].
  specialize (Hpe o eq_refl). destruct o as [lh sty]. simpl in Hpe.
  by subst sty.
Qed.

Lemma hit_test_hover (w : World) :
  current_hover (set_pointerEvents PEAuto (set_pointerEvents PENone w))
  = current_hover w.
Proof. unfold current_hover. simpl. by destruct (overlay w). Qed.

(** C8: a pointer move that resolves to nothing or to an ignored element
    leaves the hovered-element reference, the document's markers and the
    hover calls as they were; with the overlay's rendered style, the
    whole state is as before. *)
Theorem handleMouseMove_miss (props : OverlayProps) (hit : option Handle) (w : World) :
  (hit = None ∨ ∃ el, hit = Some el ∧ el ∈ prop_ignoreList props) →
  let w' := handleMouseMove props hit w in
  current_hover w' = current_hover w
  ∧ document w' = document w
  ∧ hoverCalls w' = hoverCalls w
  ∧ ((∀ o, overlay w = Some o → pointerEvents o = PEAuto) → w' = w).
Proof.
  intros Hmiss. unfold handleMouseMove.
  destruct (prop_selectMode props); simpl; [|done].
  assert (∀ w0 : World,
    match hit with
    | None => w0
    | Some el =>
        if bool_decide (el ∈ prop_ignoreList props) then w0
        else if bool_decide (current_hover w0 ≠ Some el) then
          onHover props el
            (classList_add_at el HIGHLIGHT_CLASS
              (set_lastHovered (Some el)
                match current_hover w0 with
                | Some prev => classList_remove_at prev HIGHLIGHT_CLASS w0
                | None => w0
                end))
        else w0
    end = w0) as Hskip.
  { intros w0. destruct Hmiss as [->|(el & -> & Hin)]; [done|].
    by rewrite bool_decide_eq_true_2. }
  rewrite Hskip. rewrite hit_test_hover.
  repeat split; try done. apply hit_test_restores.
Qed.
End Overlay.

Lemma handleMouseMove_miss_witness :
  let props := overlayProps demo_picking in
  let w' := handleMouseMove props None demo_picking in
  current_hover w' = current_hover demo_picking
  ∧ document w' = document demo_picking
  ∧ hoverCalls w' = hoverCalls demo_picking
  ∧ ((∀ o, overlay demo_picking = Some o → pointerEvents o = PEAuto) →
     w' = demo_picking).
Proof.
  apply (handleMouseMove_miss (overlayProps demo_picking) None demo_picking).
  left. reflexivity.
Defined.

(** ** The controller across events *)

Section Events.
Context `{Collaborators}.

Lemma run_toolbarRef (p : Async unit) (w : World) : toolbarRef (run p w) = toolbarRef w.
Proof. apply run_frame. Qed.
Lemma run_ignoreList (p : Async unit) (w : World) : ignoreList (run p w) = ignoreList w.
Proof. apply run_frame. Qed.
Lemma run_document (p : Async unit) (w : World) : document (run p w) = document w.
Proof. apply run_frame. Qed.
Lemma run_hoverCalls (p : Async unit) (w : World) : hoverCalls (run p w) = hoverCalls w.
Proof. apply run_frame. Qed.

(** Unfolding a handler into its branches. *)
Ltac handler_cases :=
  unfold step, handleMessage, handleMouseMove, handleMouseLeave, handleClick,
    overlayProps, handleHover, handleUnhover; simpl;
  repeat case_match; simpl;
  rewrite ?run_toolbarRef, ?run_ignoreList, ?run_document, ?run_hoverCalls; simpl.

Lemma step_refs (w : World) (ev : Event) :
  toolbarRef (step w ev) = toolbarRef w ∧ ignoreList (step w ev) = ignoreList w.
Proof. handler_cases; done. Qed.

Lemma steps_refs (w : World) (evs : list Event) :
  toolbarRef (steps w evs) = toolbarRef w ∧ ignoreList (steps w evs) = ignoreList w.
Proof.
  revert w. induction evs as [|ev evs IH]; intros w; [done|].
  simpl. destruct (IH (step w ev)) as [-> ->]. apply step_refs.
Qed.

(** The ignore list is built by the first render, when the ref is still
    null, and no later render rebuilds it: it stays empty while the ref
    holds the toolbar's container. *)
Lemma ignoreList_stays_empty (d : Document) (evs : list Event) :
  let w := steps (mount d) evs in
  toolbarRef w = Some (createElement d) ∧ ignoreList w = [].
Proof. simpl. by destruct (steps_refs (mount d) evs) as [-> ->]. Qed.

Lemma marker_updates_trans (d1 d2 d3 : Document) :
  marker_updates d1 d2 → marker_updates d2 d3 → marker_updates d1 d3.
Proof. intros H12 H23. induction H23; [done|by constructor..]. Qed.

Lemma step_document (w : World) (ev : Event) :
  marker_updates (document w) (document (step w ev)).
Proof. handler_cases; repeat constructor. Qed.

Lemma steps_document (w : World) (evs : list Event) :
  marker_updates (document w) (document (steps w evs)).
Proof.
  revert w. induction evs as [|ev evs IH]; intros w; [constructor|].
  simpl. eapply marker_updates_trans; [apply step_document|apply IH].
Qed.
End Events.

(** ** The highlight style *)

Lemma getElementById_None (d : Document) (i : jsstring) :
  getElementById d i = None ↔ elementsById i d = ∅.
Proof.
  unfold getElementById. rewrite <- map_to_list_empty_iff.
  by destruct (map_to_list (elementsById i d)).
Qed.

Lemma elementsById_lookup (i : jsstring) (d : Document) (h : Handle) :
  h ∈ dom (elementsById i d) ↔ El.id <$> doc_nodes d !! h = Some i.
Proof.
  rewrite elem_of_dom. unfold is_Some, elementsById.
  setoid_rewrite map_lookup_filter_Some.
  destruct (doc_nodes d !! h) as [e|]; simpl.
  - split; [intros (x & [= <-] & Hx); by rewrite <- Hx|].
    intros [= Hi]. by exists e.
  - split; [by intros (x & ? & _)|done].
Qed.

Lemma marker_updates_ids (d d' : Document) (h : Handle) :
  marker_updates d d' →
  El.id <$> doc_nodes d' !! h = El.id <$> doc_nodes d !! h.
Proof.
  induction 1 as [|d' h' tok _ IH|d' h' tok _ IH]; [done|..];
    rewrite <- IH; simpl; rewrite lookup_alter; case_decide; try done;
    subst; by destruct (doc_nodes d' !! h).
Qed.

Lemma marker_updates_count (i : jsstring) (d d' : Document) :
  marker_updates d d' → size (elementsById i d') = size (elementsById i d).
Proof.
  intros Hmu. rewrite <- !(size_dom (D:=gset Handle)). f_equal.
  apply set_eq. intros h. rewrite !elementsById_lookup.
  by rewrite (marker_updates_ids d d' h Hmu).
Qed.

Lemma injectHighlightStyle_present (d : Document) :
  getElementById (injectHighlightStyle d) STYLE_ID ≠ None.
Proof.
  unfold injectHighlightStyle.
  destruct (getElementById d STYLE_ID) eqn:E; [by rewrite E|].
  rewrite getElementById_None. unfold elementsById. simpl.
  rewrite map_filter_insert_True by done.
  apply insert_non_empty.
Qed.

Lemma injectHighlightStyle_idempotent (d : Document) :
  injectHighlightStyle (injectHighlightStyle d) = injectHighlightStyle d.
Proof.
  pose proof (injectHighlightStyle_present d) as Hp.
  unfold injectHighlightStyle at 1.
  by destruct (getElementById (injectHighlightStyle d) STYLE_ID).
Qed.

Lemma injectHighlightStyle_count (d : Document) :
  size (elementsById STYLE_ID d) ≤ 1 →
  size (elementsById STYLE_ID (injectHighlightStyle d)) = 1.
Proof.
  intros Hle. unfold injectHighlightStyle.
  destruct (getElementById d STYLE_ID) eqn:E.
  - assert (size (elementsById STYLE_ID d) ≠ 0); [|lia].
    rewrite map_size_non_empty_iff, <- getElementById_None. by rewrite E.
  - apply getElementById_None in E. unfold elementsById in *. simpl.
    rewrite map_filter_insert_True by done. rewrite E.
    rewrite insert_empty. apply map_size_singleton.
Qed.

Lemma createElement_fresh (d : Document) : doc_nodes d !! createElement d = None.
Proof. unfold createElement. apply (not_elem_of_dom (D:=gset Handle)), is_fresh. Qed.

Section Style.
Context `{Collaborators}.

Lemma mount_count (d : Document) :
  size (elementsById STYLE_ID d) ≤ 1 →
  size (elementsById STYLE_ID (document (mount d))) = 1.
Proof.
  intros Hle. unfold mount. simpl. apply injectHighlightStyle_count.
  unfold elementsById in *. simpl.
  rewrite map_filter_insert_not'; [done|by vm_compute|].
  intros y Hy. by rewrite createElement_fresh in Hy.
Qed.

(** C7: injecting the highlight style twice is injecting it once, and in
    a page that has at most one element with the style's id, the mounted
    toolbar keeps exactly one such element whatever events follow, enable
    messages included. *)
Theorem style_injected_once (d : Document) (evs : list Event) :
  injectHighlightStyle (injectHighlightStyle d) = injectHighlightStyle d
  ∧ (size (elementsById STYLE_ID d) ≤ 1 →
     let d' := document (steps (mount d) evs) in
     size (elementsById STYLE_ID d') = 1 ∧ injectHighlightStyle d' = d').
Proof.
  split; [apply injectHighlightStyle_idempotent|].
  intros Hle d'.
  assert (size (elementsById STYLE_ID d') = 1) as Hone.
  { unfold d'. rewrite (marker_updates_count _ _ _ (steps_document _ evs)).
    by apply mount_count. }
  split; [done|]. unfold injectHighlightStyle.
  destruct (getElementById d' STYLE_ID) eqn:E; [done|].
  apply getElementById_None in E. rewrite E in Hone.
  by rewrite map_size_empty in Hone.
Qed.
End Style.

Lemma style_injected_once_witness :
  let evs := [EvMessage enable_msg; EvMessage enable_msg; EvMessage enable_msg] in
  size (elementsById STYLE_ID demo_doc) ≤ 1
  ∧ size (elementsById STYLE_ID (document (steps demo_mounted evs))) = 1.
Proof.
  assert (size (elementsById STYLE_ID demo_doc) ≤ 1) as Hle by (vm_compute; lia).
  split; [exact Hle|].
  apply (proj2 (style_injected_once demo_doc
                  [EvMessage enable_msg; EvMessage enable_msg; EvMessage enable_msg])).
  exact Hle.
Defined.

(** ** The highlight marker *)

Lemma carries_marker_update_ne (f : El.t → El.t) (h h' : Handle) (d : Document) :
  h ≠ h' → carries_marker (update_node f h d) h' = carries_marker d h'.
Proof. intros Hne. unfold carries_marker. simpl. by rewrite lookup_alter_ne. Qed.

Lemma carries_marker_removed (h : Handle) (d : Document) :
  carries_marker (update_node (classList_remove HIGHLIGHT_CLASS) h d) h = false.
Proof.
  unfold carries_marker. simpl. rewrite lookup_alter_eq.
  destruct (doc_nodes d !! h); simpl; [|done].
  apply classList_contains_remove.
Qed.

Lemma carries_marker_added (h : Handle) (d : Document) :
  is_Some (doc_nodes d !! h) →
  carries_marker (update_node (classList_add HIGHLIGHT_CLASS) h d) h = true.
Proof.
  intros [e He]. unfold carries_marker. simpl. rewrite lookup_alter_eq, He.
  simpl. apply classList_contains_add, HIGHLIGHT_CLASS_wf.
Qed.

Section Hover.
Context `{Collaborators}.

Lemma hover_inv_ext (w w' : World) :
  current_hover w' = current_hover w → document w' = document w →
  hoverCalls w' = hoverCalls w → hover_inv w → hover_inv w'.
Proof. unfold hover_inv. intros -> -> ->. done. Qed.

Lemma no_marker_hover_inv (w : World) : no_marker (document w) → hover_inv w.
Proof. intros Hno h Hh. by rewrite Hno in Hh. Qed.

Lemma hover_inv_unique (w : World) (h1 h2 : Handle) :
  hover_inv w →
  carries_marker (document w) h1 = true → carries_marker (document w) h2 = true →
  h1 = h2.
Proof.
  intros Hinv [H1 _]%Hinv [H2 _]%Hinv. rewrite H1 in H2. by injection H2.
Qed.

(** Once the marker is taken from the hovered element, none is left. *)
Lemma unmark_hovered (w : World) :
  hover_inv w →
  no_marker (document match current_hover w with
                      | Some prev => classList_remove_at prev HIGHLIGHT_CLASS w
                      | None => w
                      end).
Proof.
  intros Hinv h. destruct (carries_marker _ h) eqn:Hh; [exfalso|done].
  destruct (current_hover w) as [prev|] eqn:Hcur.
  - simpl in Hh. destruct (decide (prev = h)) as [->|Hne].
    + by rewrite carries_marker_removed in Hh.
    + rewrite carries_marker_update_ne in Hh by done.
      apply Hinv in Hh as [Hh _]. congruence.
  - apply Hinv in Hh as [Hh _]. congruence.
Qed.

Lemma step_hover_inv (w : World) (ev : Event) :
  pointer_event ev → hover_inv w → hover_inv (step w ev).
Proof.
  intros Hev Hinv.
  destruct ev as [data|hit| |hit|i s]; try done; unfold step;
    destruct (overlay w) as [o|] eqn:Ho; try done.
  - (* pointer move *)
    unfold handleMouseMove, overlayProps. simpl.
    destruct (selectMode w); simpl; [|done].
    set (w0 := set_pointerEvents PEAuto (set_pointerEvents PENone w)).
    assert (hover_inv w0) as Hinv0.
    { apply (hover_inv_ext w); [apply hit_test_hover|done..]. }
    assert (∃ o0, overlay w0 = Some o0) as [o0 Ho0].
    { unfold w0. simpl. rewrite Ho. simpl. eauto. }
    clearbody w0. destruct hit as [el|]; [|done].
    case_bool_decide; [done|]. case_bool_decide; [|done].
    pose proof (unmark_hovered w0 Hinv0) as Hno.
    set (w1 := match current_hover w0 with
               | Some prev => classList_remove_at prev HIGHLIGHT_CLASS w0
               | None => w0
               end) in *.
    assert (∃ o1, overlay w1 = Some o1) as [o1 Ho1].
    { unfold w1. destruct (current_hover w0); simpl; eauto. }
    assert (hoverCalls w1 = hoverCalls w0) as Hc1.
    { unfold w1. by destruct (current_hover w0). }
    clearbody w1. intros h Hh. simpl in Hh.
    destruct (decide (el = h)) as [->|Hne].
    + split.
      * unfold current_hover. simpl. by rewrite Ho1.
      * simpl. apply last_snoc.
    + rewrite carries_marker_update_ne in Hh by done. by rewrite Hno in Hh.
  - (* pointer leave *)
    unfold handleMouseLeave, overlayProps. simpl.
    destruct (selectMode w); simpl; [|done].
    apply no_marker_hover_inv. simpl.
    pose proof (unmark_hovered w Hinv) as Hno.
    by destruct (current_hover w).
  - (* click *)
    unfold handleClick, overlayProps. simpl.
    set (w0 := set_pointerEvents PEAuto (set_pointerEvents PENone w)).
    assert (hover_inv w0) as Hinv0.
    { apply (hover_inv_ext w); [apply hit_test_hover|done..]. }
    clearbody w0. destruct hit as [el|]; [|done].
    case_bool_decide; [done|].
    pose proof (unmark_hovered w0 Hinv0) as Hno.
    apply no_marker_hover_inv.
    destruct (doc_nodes _ !! el); exact Hno.
Qed.

(** X6: a move onto a pickable element of the document that is not the
    hovered one marks it, stores it in the hovered reference and reports
    it by one hover call. *)
Lemma move_marks_new_target (w : World) (el : Handle) :
  picking w → selectMode w = true → el ∉ ignoreList w →
  current_hover w ≠ Some el → is_Some (doc_nodes (document w) !! el) →
  let w' := step w (EvMouseMove (Some el)) in
  carries_marker (document w') el = true
  ∧ current_hover w' = Some el
  ∧ hoverCalls w' = hoverCalls w ++ [Hovered el].
Proof.
  intros Hpick Hmode Hign Hcur Hel. unfold step.
  destruct (overlay w) as [o|] eqn:Ho; [|done].
  unfold handleMouseMove, overlayProps.
  cbn [prop_selectMode prop_ignoreList onHover]. rewrite Hmode.
  rewrite bool_decide_eq_false_2 by done.
  rewrite hit_test_hover. rewrite bool_decide_eq_true_2 by done.
  cbn [negb]. cbv zeta. unfold handleHover.
  split; [|split].
  - simpl. apply carries_marker_added.
    destruct (current_hover w) as [prev|] eqn:Hprev; simpl; [|done].
    rewrite lookup_alter_ne; [done|]. by intros ->.
  - unfold current_hover. simpl. rewrite Ho. simpl.
    destruct (lastHovered o); simpl; by rewrite Ho.
  - unfold current_hover. simpl. rewrite Ho. simpl.
    by destruct (lastHovered o).
Qed.

(** Within one mount of the Overlay, under pointer events: only the
    element of the hovered reference carries the marker, and it is the
    one reported by the last hover call. *)
Lemma hover_inv_session (w : World) (evs : list Event) :
  Forall pointer_event evs → hover_inv w → hover_inv (steps w evs).
Proof.
  intros Hevs. revert w. induction Hevs as [|ev evs Hev _ IH]; intros w Hinv;
    [done|].
  simpl. by apply IH, step_hover_inv.
Qed.
End Hover.

Lemma no_marker_insert (m : gmap Handle El.t) (hd hd' : list Handle)
    (h : Handle) (e : El.t) :
  no_marker (mkDocument m hd) → classList_contains HIGHLIGHT_CLASS e = false →
  no_marker (mkDocument (<[h := e]> m) hd').
Proof.
  intros Hno He h'. unfold carries_marker. simpl.
  destruct (decide (h = h')) as [->|Hne].
  - by rewrite lookup_insert_eq.
  - rewrite lookup_insert_ne by done. apply Hno.
Qed.

Section Sessions.
Context `{Collaborators}.

(** Mounting the toolbar on a page without markers and entering Picking
    gives a state in which the hover invariant holds. *)
Lemma hover_inv_first_session (d : Document) (data : JsValue) :
  no_marker d → hover_inv (step (mount d) (EvMessage data)).
Proof.
  intros Hno. apply no_marker_hover_inv.
  assert (no_marker (document (mount d))) as Hm.
  { destruct d as [m hd]. unfold mount. simpl. unfold injectHighlightStyle.
    destruct (getElementById _ STYLE_ID); simpl.
    - by apply (no_marker_insert m hd).
    - apply (no_marker_insert _ hd); [|done].
      by apply (no_marker_insert m hd). }
  unfold step, handleMessage. by destruct (_ && _).
Qed.

(** A click on a pickable element runs [handleSelect] up to its await. *)
Lemma click_suspends (w : World) (el : Handle) (node : El.t) :
  picking w → el ∉ ignoreList w →
  doc_nodes (document (step w (EvClick (Some el)))) !! el = Some node →
  ∃ w0 k,
    step w (EvClick (Some el))
    = set_pending (pending w0 ++ [mkPending el (mkSnapOptions true true) k])
                  (setSelectMode false w0)
    ∧ outbox w0 = outbox w ∧ pending w0 = pending w
    ∧ ∀ s w2, run (k s) w2 =
        match capture_result s with
        | inr url =>
            apply_effect (PostMessage (select_message el node (Some url)) (js "*")) w2
        | inl e =>
            apply_effect (PostMessage (select_message el node None) (js "*"))
              (apply_effect (ConsoleError (js "Failed to snapshot element") e) w2)
        end.
Proof.
  intros Hpick Hign. unfold step.
  destruct (overlay w) as [o|] eqn:Ho; [|done].
  unfold handleClick, overlayProps. cbn [onSelect prop_ignoreList].
  rewrite bool_decide_eq_false_2 by done.
  set (w0 := match current_hover _ with
             | Some prev => classList_remove_at prev HIGHLIGHT_CLASS _
             | None => _
             end).
  assert (outbox w0 = outbox w ∧ pending w0 = pending w) as [Hob Hpe].
  { unfold w0. by destruct (current_hover _). }
  clearbody w0.
  destruct (doc_nodes (document w0) !! el) as [node'|] eqn:Hn.
  - rewrite run_document, Hn. intros [= ->].
    destruct (run_handleSelect el node w0) as (k & Hrun & Hk).
    by exists w0, k.
  - by rewrite Hn.
Qed.

(** C3: a click that resolves to a pickable element puts the controller
    in Idle with the Overlay unmounted and nothing posted yet, and leaves
    one suspended capture; when that capture settles, whatever its
    outcome, exactly one message for the element is posted. *)
Theorem click_idle_then_one_message (w : World) (el : Handle) (node : El.t) :
  picking w → el ∉ ignoreList w →
  doc_nodes (document (step w (EvClick (Some el)))) !! el = Some node →
  let w1 := step w (EvClick (Some el)) in
  selectMode w1 = false ∧ overlay w1 = None ∧ outbox w1 = outbox w
  ∧ ∃ P, pending w1 = pending w ++ [P] ∧ cap_el P = el
     ∧ ∀ s w2 i, pending w2 !! i = Some P →
         let w3 := step w2 (EvSettle i s) in
         (∃ img, outbox w3 = outbox w2 ++ [(select_message el node img, js "*")])
         ∧ pending w3 = delete i (pending w2)
         ∧ selectMode w3 = selectMode w2 ∧ overlay w3 = overlay w2.
Proof.
  intros Hpick Hign Hnode.
  destruct (click_suspends w el node Hpick Hign Hnode)
    as (w0 & k & Hstep & Hob & Hpe & Hk).
  cbv zeta. rewrite Hstep. simpl. rewrite Hob, Hpe.
  do 3 (split; [done|]).
  eexists. split; [done|]. split; [done|].
  intros s w2 i Hi. unfold step. rewrite Hi. cbn [cap_k]. rewrite Hk.
  destruct (capture_result s); simpl; eauto.
Qed.

(** C2: when the snapshot promise rejects, or the canvas throws on
    [toDataURL], the selection still ends by posting one message, with
    the selector and the hierarchy of the element and without image; the
    failure goes to the console only. *)
Theorem capture_failure_still_posts (w : World) (el : Handle) (node : El.t)
    (s : Settled) (e : JsValue) :
  picking w → el ∉ ignoreList w →
  doc_nodes (document (step w (EvClick (Some el)))) !! el = Some node →
  capture_result s = inl e →
  ∃ P, pending (step w (EvClick (Some el))) = pending w ++ [P]
     ∧ ∀ w2 i, pending w2 !! i = Some P →
         let w3 := step w2 (EvSettle i s) in
         outbox w3 = outbox w2 ++ [(select_message el node None, js "*")]
         ∧ image (select_message el node None) = None
         ∧ selector (select_message el node None) = getDomSelector node
         ∧ pending w3 = delete i (pending w2)
         ∧ console w3 = console w2 ++ [(js "Failed to snapshot element", e)].
Proof.
  intros Hpick Hign Hnode Hfail.
  destruct (click_suspends w el node Hpick Hign Hnode)
    as (w0 & k & Hstep & Hob & Hpe & Hk).
  rewrite Hstep. simpl. rewrite Hpe. eexists. split; [done|].
  intros w2 i Hi. unfold step. rewrite Hi. cbn [cap_k].
  by rewrite Hk, Hfail.
Qed.
End Sessions.

Lemma click_idle_then_one_message_witness :
  let w1 := step demo_picking (EvClick (Some 10%nat)) in
  selectMode w1 = false ∧ overlay w1 = None ∧ outbox w1 = outbox demo_picking.
Proof.
  destruct (click_idle_then_one_message demo_picking 10 demo_button)
    as (Hmode & Hov & Hout & _).
  - by vm_compute.
  - vm_compute. by intros ?%elem_of_nil.
  - by vm_compute.
  - by repeat split.
Defined.

Lemma capture_failure_still_posts_witness :
  let w1 := step demo_picking (EvClick (Some 10%nat)) in
  let w3 := step w1 (EvSettle 0 (Rejected JNull)) in
  outbox w3 = outbox w1 ++ [(select_message 10 demo_button None, js "*")].
Proof.
  destruct (capture_failure_still_posts demo_picking 10 demo_button
              (Rejected JNull) JNull)
    as (P & HP & Hpost).
  - by vm_compute.
  - vm_compute. by intros ?%elem_of_nil.
  - by vm_compute.
  - reflexivity.
  - intros w1 w3. apply (Hpost w1 0%nat). unfold w1. by rewrite HP.
Defined.

(** ** Where the code departs from the specification *)

(** C1: on the demo page the ref holds the toolbar's container while the
    ignore list is empty: a pointer handler that resolves to the
    container treats it like any element of the page, highlighting it on
    a move and starting a selection on a click. *)
Theorem toolbar_root_is_picked :
  let root := createElement demo_doc in
  toolbarRef demo_picking = Some root
  ∧ ignoreList demo_picking = []
  ∧ carries_marker (document (step demo_picking (EvMouseMove (Some root)))) root = true
  ∧ selectMode (step demo_picking (EvClick (Some root))) = false
  ∧ length (pending (step demo_picking (EvClick (Some root)))) = 1%nat.
Proof. by vm_compute. Qed.

(** C5: a disable message while the button is hovered unmounts the
    Overlay and leaves the marker on the button; in the next Picking
    session the card is marked as well. *)
Theorem marker_leaks_across_sessions :
  let w := steps demo_mounted
             [EvMessage enable_msg; EvMouseMove (Some 10%nat);
              EvMessage disable_msg;
              EvMessage enable_msg; EvMouseMove (Some 11%nat)] in
  selectMode w = true
  ∧ current_hover w = Some 11%nat
  ∧ carries_marker (document w) 10 = true
  ∧ carries_marker (document w) 11 = true
  ∧ hoverCalls w = [Hovered 10%nat; Hovered 11%nat].
Proof. by vm_compute. Qed.

(** * Further properties of the code *)

(** ** Selector utility *)






(** X2: two elements without id, with the same tag and with non-empty
    class strings that hold the same tokens, have the same selector: the
    amount and the kind of white space in the class attribute do not
    show. *)
Theorem selector_same_tokens (e1 e2 : El.t) (c1 c2 : jsstring) :
  El.id e1 = [] → El.id e2 = [] → El.tagName e1 = El.tagName e2 →
  El.className e1 = ClassString c1 → El.className e2 = ClassString c2 →
  c1 ≠ [] → c2 ≠ [] → class_tokens c1 = class_tokens c2 →
  getDomSelector e1 = getDomSelector e2.
Proof.
  intros Hi1 Hi2 Htag Hc1 Hc2 Hn1 Hn2 Htok.
  unfold getDomSelector. rewrite Hi1, Hi2, Hc1, Hc2, Htag. simpl.
  destruct c1 as [|a1 r1]; [done|]. destruct c2 as [|a2 r2]; [done|].
  simpl str_truthy. cbv iota.
  by rewrite !replace_trim_join, Htok.
Qed.

Lemma selector_same_tokens_witness :
  getDomSelector (El.mk [] (ClassString (js "  btn   primary ")) (js "DIV"))
  = getDomSelector (El.mk [] (ClassString (js "btn primary")) (js "DIV")).
Proof.
  apply (selector_same_tokens _ _ (js "  btn   primary ") (js "btn primary"));
    try reflexivity; vm_compute; discriminate.
Defined.

(** The class strings must not be empty: without class the selector
    has no dot, with a class of white space only it ends by one. *)
Example selector_blank_and_empty_class :
  class_tokens (js "  ") = class_tokens []
  ∧ getDomSelector (El.mk [] (ClassString (js "  ")) (js "DIV")) = js "div."
  ∧ getDomSelector (El.mk [] (ClassString []) (js "DIV")) = js "div".
Proof. by vm_compute. Qed.

(** ** The highlight style *)

Lemma injectHighlightStyle_keeps (d : Document) (h : Handle) (e : El.t) :
  doc_nodes d !! h = Some e → doc_nodes (injectHighlightStyle d) !! h = Some e.
Proof.
  intros He. unfold injectHighlightStyle.
  destruct (getElementById d STYLE_ID); [done|]. simpl.
  rewrite lookup_insert_ne; [done|].
  intros <-. by rewrite createElement_fresh in He.
Qed.

(** X3: injecting the highlight style keeps every element of the
    document as it is, leaves an element with the style's id in the
    document, and only ever appends to the head. *)
Theorem injectHighlightStyle_extends (d : Document) :
  (∀ h e, doc_nodes d !! h = Some e →
          doc_nodes (injectHighlightStyle d) !! h = Some e)
  ∧ getElementById (injectHighlightStyle d) STYLE_ID ≠ None
  ∧ (doc_head (injectHighlightStyle d) = doc_head d
     ∨ ∃ style, doc_head (injectHighlightStyle d) = doc_head d ++ [style]
                ∧ doc_nodes d !! style = None
                ∧ El.tagName <$> doc_nodes (injectHighlightStyle d) !! style
                  = Some (js "STYLE")).
Proof.
  split; [|split; [apply injectHighlightStyle_present|]].
  - apply injectHighlightStyle_keeps.
  - unfold injectHighlightStyle.
    destruct (getElementById d STYLE_ID); [by left|]. right.
    exists (createElement d). simpl.
    split; [done|]. split; [apply createElement_fresh|].
    by rewrite lookup_insert_eq.
Qed.

(** ** Overlay handlers *)

Section OverlayMore.
Context `{Collaborators}.

(** X4: a click that resolves to nothing or to an ignored element is
    dropped: no selection starts, nothing is posted, the flag, the
    document and the hovered reference are as before, and with the
    overlay's rendered style the whole state is as before. *)
Theorem handleClick_miss (props : OverlayProps) (hit : option Handle) (w : World) :
  (hit = None ∨ ∃ el, hit = Some el ∧ el ∈ prop_ignoreList props) →
  let w' := handleClick props hit w in
  selectMode w' = selectMode w
  ∧ outbox w' = outbox w ∧ pending w' = pending w
  ∧ document w' = document w
  ∧ current_hover w' = current_hover w
  ∧ ((∀ o, overlay w = Some o → pointerEvents o = PEAuto) → w' = w).
Proof.
  intros Hmiss. unfold handleClick. cbv zeta.
  set (w0 := set_pointerEvents PEAuto (set_pointerEvents PENone w)).
  assert (match hit with
          | None => w0
          | Some el =>
              if bool_decide (el ∈ prop_ignoreList props) then w0
              else onSelect props el
                     match current_hover w0 with
                     | Some prev => classList_remove_at prev HIGHLIGHT_CLASS w0
                     | None => w0
                     end
          end = w0) as ->.
  { destruct Hmiss as [->|(el & -> & Hin)]; [done|].
    by rewrite bool_decide_eq_true_2. }
  unfold w0. rewrite hit_test_hover.
  do 5 (split; [done|]). apply hit_test_restores.
Qed.

(** X5: a pointer move that resolves to the element already hovered
    changes nothing: no marker is touched and no second hover call is
    made. *)
Theorem handleMouseMove_same_target (props : OverlayProps) (el : Handle) (w : World) :
  current_hover w = Some el →
  (∀ o, overlay w = Some o → pointerEvents o = PEAuto) →
  handleMouseMove props (Some el) w = w.
Proof.
  intros Hcur Hpe. unfold handleMouseMove.
  destruct (prop_selectMode props); cbn [negb]; [|done]. cbv zeta.
  rewrite hit_test_hover, (hit_test_restores w Hpe).
  destruct (bool_decide (el ∈ prop_ignoreList props)); [done|].
  by rewrite bool_decide_eq_false_2 by (by intros []).
Qed.

(** X7: leaving the overlay while the flag is set takes the marker from
    the hovered element, clears the hovered reference and makes one
    unhover call, whether or not an element was hovered; in a session
    that kept the hover invariant no element carries the marker
    afterwards. *)
Theorem mouse_leave_clears (w : World) :
  picking w → selectMode w = true → hover_inv w →
  let w' := step w EvMouseLeave in
  no_marker (document w')
  ∧ current_hover w' = None
  ∧ hoverCalls w' = hoverCalls w ++ [Unhovered].
Proof.
  intros Hpick Hmode Hinv. unfold step.
  destruct (overlay w) as [o|] eqn:Ho; [|done].
  unfold handleMouseLeave, overlayProps.
  cbn [prop_selectMode onUnhover]. rewrite Hmode. cbn [negb]. cbv zeta.
  pose proof (unmark_hovered w Hinv) as Hno.
  unfold handleUnhover.
  destruct (current_hover w) as [prev|] eqn:Hcur.
  - split; [exact Hno|]. split; [|done].
    unfold current_hover. simpl. by rewrite Ho.
  - by split.
Qed.

(** X8: under pointer events on one mounted Overlay, starting from a
    state that keeps the hover invariant, two elements never carry the
    marker together, and an element that carries it is the one in the
    hovered reference and the one of the last hover call. *)
Theorem hover_session_single_marker (w : World) (evs : list Event)
    (h1 h2 : Handle) :
  Forall pointer_event evs → hover_inv w →
  let w' := steps w evs in
  carries_marker (document w') h1 = true →
  carries_marker (document w') h2 = true →
  h1 = h2 ∧ current_hover w' = Some h1
  ∧ last (hoverCalls w') = Some (Hovered h1).
Proof.
  intros Hevs Hinv w' H1 H2.
  pose proof (hover_inv_session w evs Hevs Hinv) as Hinv'.
  split; [by apply (hover_inv_unique (steps w evs))|].
  by apply Hinv'.
Qed.

(** X9: a click that starts a selection, in a session that kept the
    hover invariant, leaves no element with the marker: the element
    whose selector is computed does not hold the highlight class. *)
Theorem click_unmarks (w : World) (el : Handle) :
  picking w → el ∉ ignoreList w → hover_inv w →
  let w1 := step w (EvClick (Some el)) in
  no_marker (document w1)
  ∧ ∀ node, doc_nodes (document w1) !! el = Some node →
            classList_contains HIGHLIGHT_CLASS node = false.
Proof.
  intros Hpick Hign Hinv w1.
  assert (no_marker (document w1)) as Hno.
  { unfold w1, step. destruct (overlay w) as [o|] eqn:Ho; [|done].
    unfold handleClick, overlayProps. cbn [onSelect prop_ignoreList].
    rewrite bool_decide_eq_false_2 by done. cbv zeta.
    set (w0 := set_pointerEvents PEAuto (set_pointerEvents PENone w)).
    assert (hover_inv w0) as Hinv0.
    { apply (hover_inv_ext w); [apply hit_test_hover|done..]. }
    pose proof (unmark_hovered w0 Hinv0) as Hno.
    destruct (doc_nodes _ !! el); [by rewrite run_document|done]. }
  split; [done|]. intros node Hnode.
  specialize (Hno el). unfold carries_marker in Hno. by rewrite Hnode in Hno.
Qed.

(** X10: when the snapshot promise is fulfilled and the canvas gives a
    data URL, the selection ends by posting one message that carries the
    URL as image, and nothing is written to the console. *)
Theorem capture_success_posts_image (w : World) (el : Handle) (node : El.t)
    (s : Settled) (url : jsstring) :
  picking w → el ∉ ignoreList w →
  doc_nodes (document (step w (EvClick (Some el)))) !! el = Some node →
  capture_result s = inr url →
  ∃ P, pending (step w (EvClick (Some el))) = pending w ++ [P]
     ∧ ∀ w2 i, pending w2 !! i = Some P →
         let w3 := step w2 (EvSettle i s) in
         outbox w3 = outbox w2 ++ [(select_message el node (Some url), js "*")]
         ∧ pending w3 = delete i (pending w2)
         ∧ console w3 = console w2.
Proof.
  intros Hpick Hign Hnode Hok.
  destruct (click_suspends w el node Hpick Hign Hnode)
    as (w0 & k & Hstep & Hob & Hpe & Hk).
  rewrite Hstep. simpl. rewrite Hpe. eexists. split; [done|].
  intros w2 i Hi. unfold step. rewrite Hi. cbn [cap_k].
  by rewrite Hk, Hok.
Qed.

(** X11: once a click has started a selection, pointer events do
    nothing until Picking is entered again: a second click cannot start
    a second selection while the capture is under way. *)
Theorem click_then_pointer_ignored (w : World) (el : Handle) (node : El.t)
    (ev : Event) :
  picking w → el ∉ ignoreList w →
  doc_nodes (document (step w (EvClick (Some el)))) !! el = Some node →
  pointer_event ev →
  step (step w (EvClick (Some el))) ev = step w (EvClick (Some el)).
Proof.
  intros Hpick Hign Hnode Hev.
  destruct (click_suspends w el node Hpick Hign Hnode)
    as (w0 & k & Hstep & _).
  rewrite Hstep. by destruct ev.
Qed.
End OverlayMore.

(** ** Reachable states *)

Section Reachable.
Context `{Collaborators}.

Lemma consistent_setSelectMode (b : bool) (w : World) :
  consistent w → consistent (setSelectMode b w).
Proof.
  intros [Hiff Hpe]. split; simpl.
  - by destruct b.
  - destruct b; [|done]. intros o [= <-].
    destruct (overlay w) as [o'|] eqn:Ho; simpl; [by apply Hpe|done].
Qed.

Lemma wf_finish_selection (el : Handle) (node : El.t) (s : Settled) (w : World) :
  wf_world w → wf_world (finish_selection el node s w).
Proof.
  intros (Hc & Hp & Ho). unfold finish_selection.
  destruct (capture_result s); simpl;
    (split; [exact Hc|split; [exact Hp|]]);
    simpl; apply Forall_app; (split; [exact Ho|]); by repeat constructor.
Qed.

Lemma step_wf (w : World) (ev : Event) : wf_world w → wf_world (step w ev).
Proof.
  intros (Hc & Hp & Ho).
  destruct ev as [data|hit| |hit|i s]; unfold step.
  - (* message *)
    unfold handleMessage. destruct (_ && _); [|done].
    split; [by apply consistent_setSelectMode|done].
  - (* pointer move *)
    destruct (overlay w) as [o|] eqn:Ho'; [|done].
    unfold handleMouseMove, overlayProps.
    cbn [prop_selectMode prop_ignoreList onHover].
    destruct (selectMode w) eqn:Hm; cbn [negb]; [|done]. cbv zeta.
    rewrite hit_test_restores by apply Hc.
    destruct hit as [el|]; [|done].
    case_bool_decide; [done|]. case_bool_decide; [|done].
    split; [|by destruct (current_hover _)].
    destruct Hc as [Hiff Hpe]. specialize (Hpe o Ho').
    unfold handleHover, current_hover. rewrite Ho'. simpl.
    destruct (lastHovered o); split; simpl; rewrite Ho'; simpl;
      try (by rewrite Hm); by intros ? [= <-].
  - (* pointer leave *)
    destruct (overlay w) as [o|] eqn:Ho'; [|done].
    unfold handleMouseLeave, overlayProps. cbn [prop_selectMode onUnhover].
    destruct (selectMode w) eqn:Hm; cbn [negb]; [|done]. cbv zeta.
    destruct Hc as [Hiff Hpe]. specialize (Hpe o Ho').
    unfold handleUnhover, current_hover. rewrite Ho'. simpl.
    destruct (lastHovered o); (split; [|done]); split; simpl; rewrite Ho';
      simpl; try (by rewrite Hm); by intros ? [= <-].
  - (* click *)
    destruct (overlay w) as [o|] eqn:Ho'; [|done].
    unfold handleClick, overlayProps. cbn [onSelect prop_ignoreList]. cbv zeta.
    rewrite hit_test_restores by apply Hc.
    destruct hit as [el|]; [|done].
    case_bool_decide; [done|].
    set (w0 := match current_hover w with
               | Some prev => classList_remove_at prev HIGHLIGHT_CLASS w
               | None => w
               end).
    assert (wf_world w0) as (Hc0 & Hp0 & Ho0).
    { unfold w0. by destruct (current_hover w). }
    clearbody w0.
    destruct (doc_nodes (document w0) !! el) as [node|]; [|done].
    destruct (run_handleSelect el node w0) as (k & -> & Hk).
    split; [by apply consistent_setSelectMode|]. split; [|done].
    simpl. apply Forall_app. split; [done|].
    constructor; [|constructor]. by exists node.
  - (* a capture settles *)
    destruct (pending w !! i) as [P|] eqn:HP; [|done].
    pose proof (Forall_lookup_1 _ _ _ _ Hp HP) as [node Hk].
    rewrite Hk. apply wf_finish_selection.
    split; [done|]. split; [|done]. simpl. by apply Forall_delete.
Qed.

Lemma mount_wf (d : Document) : wf_world (mount d).
Proof. by repeat split. Qed.

Lemma steps_wf (w : World) (evs : list Event) :
  wf_world w → wf_world (steps w evs).
Proof.
  revert w. induction evs as [|ev evs IH]; intros w Hwf; [done|].
  simpl. by apply IH, step_wf.
Qed.

(** X13: everything the mounted toolbar ever posts is a selection
    result, and it is posted to every origin. *)
Theorem reachable_outbox (d : Document) (evs : list Event) :
  Forall (λ p, msg_type p.1 = js "vly-toolbar-select" ∧ p.2 = js "*")
         (outbox (steps (mount d) evs)).
Proof. apply (steps_wf (mount d) evs (mount_wf d)). Qed.

(** X14: in every reachable state, a snapshot promise that settles,
    however it settles, posts exactly one message and discards its
    capture; the flag, the Overlay and the document are not touched, so
    a late capture does not disturb a Picking session entered since. *)
Theorem reachable_settle (d : Document) (evs : list Event) (i : nat) (s : Settled) :
  let w := steps (mount d) evs in
  (i < length (pending w))%nat →
  let w' := step w (EvSettle i s) in
  (∃ m, outbox w' = outbox w ++ [(m, js "*")])
  ∧ pending w' = delete i (pending w)
  ∧ selectMode w' = selectMode w ∧ overlay w' = overlay w
  ∧ document w' = document w.
Proof.
  intros w Hi w'.
  destruct (steps_wf (mount d) evs (mount_wf d)) as (_ & Hp & _).
  fold w in Hp. unfold w', step.
  destruct (lookup_lt_is_Some_2 _ _ Hi) as [P HP]. rewrite HP.
  destruct (Forall_lookup_1 _ _ _ _ Hp HP) as [node Hk].
  rewrite Hk. unfold finish_selection.
  destruct (capture_result s); simpl; eauto 10.
Qed.

(** X15: a selection-mode message whose [enabled] field has the
    truthiness of the current flag changes nothing: a second enable
    keeps the Overlay with its hovered element, and a disable while Idle
    is a no-op. *)
Theorem handleMessage_same_flag (data : JsValue) (w : World) :
  (overlay w ≠ None ↔ selectMode w = true) →
  truthy (get_prop data (js "enabled")) = selectMode w →
  handleMessage data w = w.
Proof.
  intros Hiff Hen. unfold handleMessage.
  destruct (_ && _); [|done]. rewrite Hen.
  destruct w as [sm tr il ov d ob co pe hc]. simpl in *.
  unfold setSelectMode. simpl. f_equal.
  destruct sm, ov as [o|]; simpl; try done.
  - by destruct (proj2 Hiff eq_refl).
  - by specialize (proj1 Hiff ltac:(done)).
Qed.

(** X16: only a settling capture posts or logs: messages from the
    parent, pointer moves, leaves and clicks leave the outbox and the
    console as they are. *)
Theorem only_settle_posts (w : World) (ev : Event) :
  (∀ i s, ev ≠ EvSettle i s) →
  outbox (step w ev) = outbox w ∧ console (step w ev) = console w.
Proof.
  intros Hev. destruct ev as [data|hit| |hit|i s]; unfold step.
  - unfold handleMessage. by destruct (_ && _).
  - destruct (overlay w); [|done].
    unfold handleMouseMove, overlayProps, handleHover. simpl.
    repeat case_match; done.
  - destruct (overlay w); [|done].
    unfold handleMouseLeave, overlayProps, handleUnhover. simpl.
    repeat case_match; done.
  - destruct (overlay w); [|done].
    unfold handleClick, overlayProps. cbn [onSelect prop_ignoreList]. cbv zeta.
    destruct hit as [el|]; [|done]. case_bool_decide; [done|].
    match goal with |- context [doc_nodes (document ?w0) !! el] =>
      set (w1 := w0);
      assert (outbox w1 = outbox w ∧ console w1 = console w) as [<- <-]
        by (unfold w1; by destruct (current_hover _));
      clearbody w1
    end.
    destruct (doc_nodes (document w1) !! el) as [node|]; [|done].
    by destruct (run_handleSelect el node w1) as (k & -> & _).
  - by destruct (Hev i s).
Qed.

Lemma step_counts (w : World) (ev : Event) :
  wf_world w →
  length (outbox (step w ev))
    = (length (outbox w) + (if settles w ev then 1 else 0))%nat
  ∧ (length (pending (step w ev)) + (if settles w ev then 1 else 0))%nat
    = (length (pending w) + (if click_completes w ev then 1 else 0))%nat.
Proof.
  intros (Hc & Hp & Ho).
  destruct ev as [data|hit| |hit|i s]; unfold step; cbn [settles click_completes].
  - unfold handleMessage. destruct (_ && _); simpl; lia.
  - destruct (overlay w); [|lia].
    unfold handleMouseMove, overlayProps, handleHover. simpl.
    repeat case_match; simpl; lia.
  - destruct (overlay w); [|lia].
    unfold handleMouseLeave, overlayProps, handleUnhover. simpl.
    repeat case_match; simpl; lia.
  - destruct hit as [el|]; [|destruct (overlay w); simpl; lia].
    destruct (overlay w) as [o|] eqn:Ho'; [|simpl; lia].
    rewrite (bool_decide_eq_true_2 (Some o ≠ None)) by done.
    unfold handleClick, overlayProps. cbn [onSelect prop_ignoreList]. cbv zeta.
    rewrite hit_test_restores by apply Hc.
    case_bool_decide as Hign.
    { rewrite (bool_decide_eq_false_2 (el ∉ ignoreList w)) by tauto. simpl. lia. }
    rewrite (bool_decide_eq_true_2 (el ∉ ignoreList w)) by done.
    set (w0 := match current_hover w with
               | Some prev => classList_remove_at prev HIGHLIGHT_CLASS w
               | None => w
               end).
    assert (outbox w0 = outbox w ∧ pending w0 = pending w
            ∧ (is_Some (doc_nodes (document w0) !! el)
               ↔ is_Some (doc_nodes (document w) !! el))) as (Hob & Hpe & Hdom).
    { unfold w0. destruct (current_hover w); [|done]. simpl.
      split; [done|]. split; [done|]. apply lookup_alter_is_Some. }
    clearbody w0.
    destruct (doc_nodes (document w0) !! el) as [node|] eqn:Hn.
    + rewrite bool_decide_eq_true_2 by (apply Hdom; eauto).
      destruct (run_handleSelect el node w0) as (k & -> & _). simpl.
      rewrite Hob, Hpe, length_app. simpl. lia.
    + rewrite bool_decide_eq_false_2.
      * rewrite Hob, Hpe. simpl. lia.
      * intros Hs%Hdom. by destruct Hs.
  - destruct (pending w !! i) as [P|] eqn:HP.
    + rewrite bool_decide_eq_true_2 by (by eapply lookup_lt_Some).
      destruct (Forall_lookup_1 _ _ _ _ Hp HP) as [node Hk].
      rewrite Hk. unfold finish_selection.
      assert (length (delete i (pending w)) + 1 = length (pending w))%nat as Hlen.
      { rewrite length_delete by eauto.
        apply lookup_lt_Some in HP. lia. }
      destruct (capture_result s); simpl; rewrite !length_app; simpl; lia.
    + rewrite bool_decide_eq_false_2; [lia|].
      apply lookup_ge_None in HP. lia.
Qed.

(** X17: along every run of the mounted toolbar, the messages posted are
    as many as the captures that settled, and together with the captures
    still pending they are as many as the clicks that started a
    selection: one message for each completed click, never more. *)
Theorem one_message_per_click (d : Document) (evs : list Event) :
  let w := steps (mount d) evs in
  length (outbox w) = count_events settles (mount d) evs
  ∧ (length (outbox w) + length (pending w))%nat
    = count_events click_completes (mount d) evs.
Proof.
  assert (∀ w0, wf_world w0 →
    length (outbox (steps w0 evs))
      = (length (outbox w0) + count_events settles w0 evs)%nat
    ∧ (length (outbox (steps w0 evs)) + length (pending (steps w0 evs)))%nat
      = (length (outbox w0) + length (pending w0)
         + count_events click_completes w0 evs)%nat) as Hgen.
  { induction evs as [|ev evs IH]; intros w0 Hwf; [simpl; lia|].
    destruct (IH (step w0 ev) (step_wf w0 ev Hwf)) as [IH1 IH2].
    destruct (step_counts w0 ev Hwf) as [H1 H2].
    cbn [steps fold_left count_events]. fold (steps (step w0 ev) evs).
    split; lia. }
  destruct (Hgen (mount d) (mount_wf d)) as [H1 H2].
  cbv zeta. split; [rewrite H1|rewrite H2]; simpl; lia.
Qed.
End Reachable.

(** ** The properties on the demo page *)

Lemma demo_doc_no_marker : no_marker demo_doc.
Proof.
  unfold demo_doc.
  apply (no_marker_insert _ [] []); [|by vm_compute].
  apply (no_marker_insert _ [] []); [|by vm_compute].
  intros h. unfold carries_marker. simpl. by rewrite lookup_empty.
Qed.

Lemma demo_picking_hover_inv : hover_inv demo_picking.
Proof. apply (hover_inv_first_session demo_doc), demo_doc_no_marker. Qed.

Lemma demo_hovering_hover_inv : hover_inv demo_hovering.
Proof. by apply step_hover_inv, demo_picking_hover_inv. Qed.

Lemma handleClick_miss_witness :
  let w' := handleClick (overlayProps demo_hovering) None demo_hovering in
  selectMode w' = selectMode demo_hovering
  ∧ outbox w' = outbox demo_hovering ∧ pending w' = pending demo_hovering
  ∧ document w' = document demo_hovering
  ∧ current_hover w' = current_hover demo_hovering
  ∧ ((∀ o, overlay demo_hovering = Some o → pointerEvents o = PEAuto) →
     w' = demo_hovering).
Proof.
  apply (handleClick_miss (overlayProps demo_hovering) None demo_hovering).
  left. reflexivity.
Defined.

Lemma handleMouseMove_same_target_witness :
  handleMouseMove (overlayProps demo_hovering) (Some 10%nat) demo_hovering
  = demo_hovering.
Proof.
  apply handleMouseMove_same_target.
  - by vm_compute.
  - intros o Ho. vm_compute in Ho. by injection Ho as <-.
Defined.

Lemma move_marks_new_target_witness :
  let w' := step demo_picking (EvMouseMove (Some 10%nat)) in
  carries_marker (document w') 10 = true
  ∧ current_hover w' = Some 10%nat
  ∧ hoverCalls w' = hoverCalls demo_picking ++ [Hovered 10%nat].
Proof.
  apply move_marks_new_target.
  - by vm_compute.
  - by vm_compute.
  - vm_compute. by intros ?%elem_of_nil.
  - by vm_compute.
  - vm_compute. eauto.
Defined.

Lemma mouse_leave_clears_witness :
  let w' := step demo_hovering EvMouseLeave in
  no_marker (document w')
  ∧ current_hover w' = None
  ∧ hoverCalls w' = hoverCalls demo_hovering ++ [Unhovered].
Proof.
  apply mouse_leave_clears.
  - by vm_compute.
  - by vm_compute.
  - apply demo_hovering_hover_inv.
Defined.

Lemma hover_session_single_marker_witness :
  let w' := steps demo_picking
              [EvMouseMove (Some 10%nat); EvMouseMove (Some 11%nat)] in
  11%nat = 11%nat ∧ current_hover w' = Some 11%nat
  ∧ last (hoverCalls w') = Some (Hovered 11%nat).
Proof.
  apply (hover_session_single_marker demo_picking
           [EvMouseMove (Some 10%nat); EvMouseMove (Some 11%nat)] 11 11).
  - repeat constructor.
  - apply demo_picking_hover_inv.
  - by vm_compute.
  - by vm_compute.
Defined.

Lemma click_unmarks_witness :
  let w1 := step demo_hovering (EvClick (Some 10%nat)) in
  no_marker (document w1)
  ∧ ∀ node, doc_nodes (document w1) !! 10%nat = Some node →
            classList_contains HIGHLIGHT_CLASS node = false.
Proof.
  apply click_unmarks.
  - by vm_compute.
  - vm_compute. by intros ?%elem_of_nil.
  - apply demo_hovering_hover_inv.
Defined.

Lemma capture_success_posts_image_witness :
  let s := Fulfilled (mkCanvas (λ _, inr (js "data:image/png;base64,AA"))) in
  let w1 := step demo_picking (EvClick (Some 10%nat)) in
  let w3 := step w1 (EvSettle 0 s) in
  outbox w3
  = outbox w1
    ++ [(select_message 10 demo_button (Some (js "data:image/png;base64,AA")),
         js "*")].
Proof.
  intros s.
  destruct (capture_success_posts_image demo_picking 10 demo_button s
              (js "data:image/png;base64,AA"))
    as (P & HP & Hpost).
  - by vm_compute.
  - vm_compute. by intros ?%elem_of_nil.
  - by vm_compute.
  - reflexivity.
  - intros w1 w3. apply (Hpost w1 0%nat). unfold w1. by rewrite HP.
Defined.

Lemma click_then_pointer_ignored_witness :
  step (step demo_picking (EvClick (Some 10%nat))) (EvClick (Some 11%nat))
  = step demo_picking (EvClick (Some 10%nat)).
Proof.
  apply (click_then_pointer_ignored demo_picking 10 demo_button).
  - by vm_compute.
  - vm_compute. by intros ?%elem_of_nil.
  - by vm_compute.
  - exact I.
Defined.

Lemma reachable_settle_witness :
  let w := steps demo_mounted [EvMessage enable_msg; EvClick (Some 10%nat)] in
  let w' := step w (EvSettle 0 (Rejected JNull)) in
  (∃ m, outbox w' = outbox w ++ [(m, js "*")])
  ∧ pending w' = delete 0%nat (pending w)
  ∧ selectMode w' = selectMode w ∧ overlay w' = overlay w
  ∧ document w' = document w.
Proof.
  apply (reachable_settle demo_doc [EvMessage enable_msg; EvClick (Some 10%nat)]
           0 (Rejected JNull)).
  vm_compute. lia.
Defined.

Lemma handleMessage_same_flag_witness :
  handleMessage enable_msg demo_hovering = demo_hovering.
Proof.
  apply handleMessage_same_flag.
  - by vm_compute.
  - by vm_compute.
Defined.

Lemma only_settle_posts_witness :
  outbox (step demo_hovering (EvClick (Some 10%nat))) = outbox demo_hovering
  ∧ console (step demo_hovering (EvClick (Some 10%nat))) = console demo_hovering.
Proof. apply only_settle_posts. intros i s. discriminate. Defined.

(** Two clicks and one settled capture on the demo page. *)
Example one_message_per_click_demo :
  let evs := [EvMessage enable_msg; EvClick (Some 10%nat);
              EvMessage enable_msg; EvClick (Some 11%nat);
              EvSettle 1 (Rejected JNull)] in
  let w := steps demo_mounted evs in
  length (outbox w) = 1%nat ∧ length (pending w) = 1%nat
  ∧ count_events click_completes demo_mounted evs = 2%nat.
Proof. by vm_compute. Qed.

(** ** What the toolbar does to the page *)

Lemma token_set_add (tok x : jsstring) (el : El.t) :
  token_wf tok →
  x ∈ token_set (class_attr (El.className (classList_add tok el)))
  ↔ x ∈ token_set (class_attr (El.className el)) ∨ x = tok.
Proof.
  intros Htok. unfold classList_add. rewrite class_attr_set_class.
  pose proof (token_set_wf (class_attr (El.className el))) as Hwf.
  case_bool_decide as Hin.
  - rewrite token_set_serialize by done. split; [by left|].
    by intros [?| ->].
  - rewrite token_set_serialize.
    + rewrite elem_of_app, list_elem_of_singleton. done.
    + apply Forall_app. split; [done|]. by constructor.
Qed.

Lemma token_set_remove (tok x : jsstring) (el : El.t) :
  x ∈ token_set (class_attr (El.className (classList_remove tok el)))
  ↔ x ∈ token_set (class_attr (El.className el)) ∧ x ≠ tok.
Proof.
  unfold classList_remove. rewrite class_attr_set_class.
  pose proof (token_set_wf (class_attr (El.className el))) as Hwf.
  rewrite token_set_serialize.
  - rewrite list_elem_of_filter. tauto.
  - apply Forall_forall. intros t [_ Ht]%list_elem_of_filter.
    rewrite Forall_forall in Hwf. by apply Hwf.
Qed.

Lemma highlight_updates_node (d d' : Document) (h : Handle) (e : El.t) :
  highlight_updates d d' → doc_nodes d !! h = Some e →
  ∃ e', doc_nodes d' !! h = Some e' ∧ same_but_highlight e e'.
Proof.
  intros Hu He. induction Hu as [|d' h' _ IH|d' h' _ IH].
  - exists e. by repeat split.
  - destruct IH as (e' & He' & Hid & Htag & Htok). simpl.
    destruct (decide (h' = h)) as [->|Hne].
    + rewrite lookup_alter_eq, He'. simpl. eexists. split; [done|].
      repeat split; try done.
      * intros Hin. apply Htok; [done|].
        apply token_set_add in Hin as [?|?]; [done| |apply HIGHLIGHT_CLASS_wf].
        congruence.
      * intros Hin. apply token_set_add; [apply HIGHLIGHT_CLASS_wf|].
        left. by apply Htok.
    + rewrite lookup_alter_ne by done. by exists e'.
  - destruct IH as (e' & He' & Hid & Htag & Htok). simpl.
    destruct (decide (h' = h)) as [->|Hne].
    + rewrite lookup_alter_eq, He'. simpl. eexists. split; [done|].
      repeat split; try done.
      * intros [Hin _]%token_set_remove. by apply Htok.
      * intros Hin. apply token_set_remove. split; [by apply Htok|done].
    + rewrite lookup_alter_ne by done. by exists e'.
Qed.

Lemma highlight_updates_trans (d1 d2 d3 : Document) :
  highlight_updates d1 d2 → highlight_updates d2 d3 → highlight_updates d1 d3.
Proof. intros H12 H23. induction H23; [done|by constructor..]. Qed.

Section Page.
Context `{Collaborators}.

Lemma step_highlight (w : World) (ev : Event) :
  highlight_updates (document w) (document (step w ev)).
Proof.
  unfold step, handleMessage, handleMouseMove, handleMouseLeave, handleClick,
    overlayProps, handleHover, handleUnhover; simpl;
  repeat case_match; simpl; rewrite ?run_document; simpl;
  repeat constructor.
Qed.

Lemma steps_highlight (w : World) (evs : list Event) :
  highlight_updates (document w) (document (steps w evs)).
Proof.
  revert w. induction evs as [|ev evs IH]; intros w; [constructor|].
  simpl. eapply highlight_updates_trans; [apply step_highlight|apply IH].
Qed.

Lemma mount_keeps (d : Document) (h : Handle) (e : El.t) :
  doc_nodes d !! h = Some e → doc_nodes (document (mount d)) !! h = Some e.
Proof.
  intros He. unfold mount. cbn [document].
  apply injectHighlightStyle_keeps. simpl.
  rewrite lookup_insert_ne; [done|].
  intros <-. by rewrite createElement_fresh in He.
Qed.

(** X18: whatever happens after the toolbar is mounted, every element of
    the page stays in the document with its id and its tag name, and its
    class attribute holds the same tokens except, possibly, the
    highlight class: the picker adds and removes nothing else. *)
Theorem page_elements_kept (d : Document) (evs : list Event) (h : Handle)
    (e : El.t) :
  doc_nodes d !! h = Some e →
  ∃ e', doc_nodes (document (steps (mount d) evs)) !! h = Some e'
      ∧ El.id e' = El.id e ∧ El.tagName e' = El.tagName e
      ∧ ∀ tok, tok ≠ HIGHLIGHT_CLASS →
          (tok ∈ token_set (class_attr (El.className e'))
           ↔ tok ∈ token_set (class_attr (El.className e))).
Proof.
  intros He. apply mount_keeps in He.
  apply (highlight_updates_node _ _ h e (steps_highlight (mount d) evs) He).
Qed.
End Page.

Lemma page_elements_kept_witness :
  ∃ e', doc_nodes (document (steps demo_mounted
                     [EvMessage enable_msg; EvMouseMove (Some 10%nat)])) !! 10%nat
        = Some e'
      ∧ El.id e' = El.id demo_button ∧ El.tagName e' = El.tagName demo_button
      ∧ ∀ tok, tok ≠ HIGHLIGHT_CLASS →
          (tok ∈ token_set (class_attr (El.className e'))
           ↔ tok ∈ token_set (class_attr (El.className demo_button))).
Proof.
  apply (page_elements_kept demo_doc
           [EvMessage enable_msg; EvMouseMove (Some 10%nat)] 10 demo_button).
  by vm_compute.
Defined.
